(** * Drift-prediction engine of CoastGuard Lite (server/drift-engine.ts)

    A shallow embedding of the Monte Carlo drift engine and the proofs of
    the properties its specification states.

    Modelling choices, fixed once for the whole development:

    - a JavaScript [number] that carries a physical quantity (degrees,
      km/h, m/s, hours of one step, an intensity) is a real number, and
      [+ - * /], [Math.sin], [Math.cos] and [Math.PI] are the exact
      operations of [R]: rounding, NaN and the infinities of IEEE-754
      doubles are outside this model;
    - a [number] that counts (loop bounds, array lengths, occupancy
      counts) is a [nat];
    - [Math.random] is an arbitrary sequence [random : nat -> R]; the
      state threaded through the sampler is the number of draws made so
      far;
    - [Number.prototype.toFixed] and [parseFloat] are library functions of
      the host and are taken as parameters;
    - the three divisions whose divisor is a count (by [maxCount], by
      [hours] and by [hourPoints.length]) are checked: they answer [None]
      on a zero divisor, so a result [Some r] also records that the run
      divided by no zero count. *)

From Stdlib Require Import Reals Lra Lia String Ascii List Arith Bool.
From Stdlib Require Import ZArith Permutation.
Import ListNotations.

Local Open Scope R_scope.

(** ** Data model *)

(** [const R = 6371]: the earth radius in kilometres (the source calls it
    [R], which is the name of the type of real numbers here). *)
Definition R_km : R := 6371.

Record DriftPoint : Type := mkDriftPoint {
  lat : R;
  lng : R
}.

Record HeatmapPoint : Type := mkHeatmapPoint {
  h_lat : R;
  h_lng : R;
  intensity : R
}.

Record DriftSimulationResult : Type := mkResult {
  predictedPoints : list DriftPoint;
  heatmapPoints : list HeatmapPoint;
  driftPaths : list (list DriftPoint)
}.

(** [MarineWeatherData] of shared/schema.ts. *)
Record MarineWeatherData : Type := mkWeather {
  windSpeed : R;
  windDirection : R;
  waveHeight : R;
  currentSpeed : R;
  currentDirection : R
}.

(** ** Drift kinematics *)

Definition calculateDrift
    (lat lng windSpeed windDirection currentSpeed currentDirection hours : R)
    : DriftPoint :=
  let windSpeedMs := windSpeed / 3.6 in
  let windDriftFactor := 0.035 in
  let windDriftSpeed := windSpeedMs * windDriftFactor in
  let windAngle := (windDirection * PI) / 180 in
  let currentAngle := (currentDirection * PI) / 180 in
  let windDriftX := windDriftSpeed * sin windAngle in
  let windDriftY := windDriftSpeed * cos windAngle in
  let currentX := currentSpeed * sin currentAngle in
  let currentY := currentSpeed * cos currentAngle in
  let totalVelocityX := windDriftX + currentX in
  let totalVelocityY := windDriftY + currentY in
  let distanceX := totalVelocityX * hours * 3600 / 1000 in
  let distanceY := totalVelocityY * hours * 3600 / 1000 in
  let latChange := (distanceY / R_km) * (180 / PI) in
  let lngChange := (distanceX / R_km) * (180 / PI) / cos ((lat * PI) / 180) in
  {| lat := lat + latChange; lng := lng + lngChange |}.

(** ** Search-area estimator *)

(** [Math.max(...xs)] and [Math.min(...xs)] over a non-empty array of
    numbers.  On no argument JavaScript answers an infinity, which is no
    real number; the estimator spreads arrays of two elements or more, and
    the value given here for [[]] is never read. *)
Definition Math_max (xs : list R) : R :=
  match xs with
  | [] => 0
  | x :: xs' => fold_left Rmax xs' x
  end.

Definition Math_min (xs : list R) : R :=
  match xs with
  | [] => 0
  | x :: xs' => fold_left Rmin xs' x
  end.

Definition generateSearchAreaRadius (heatmapPoints : list HeatmapPoint) : R :=
  if (length heatmapPoints <? 2)%nat then 5
  else
    let lats := map h_lat heatmapPoints in
    let lngs := map h_lng heatmapPoints in
    let latRange := Math_max lats - Math_min lats in
    let lngRange := Math_max lngs - Math_min lngs in
    let maxRange := Rmax latRange lngRange in
    let radiusKm := (maxRange * 111) / 2 in
    Rmax 2 (Rmin 50 radiusKm).

(** ** Host functions and JavaScript helpers *)

(** What the engine takes from the JavaScript host: the successive values
    of [Math.random()], [Number.prototype.toFixed] and [parseFloat]. *)
Record Host : Type := mkHost {
  random : nat -> R;
  toFixed : R -> nat -> string;
  parseFloat : string -> R
}.

(** A computation that draws random numbers: the state is the number of
    draws made so far. *)
Definition Rand (A : Type) : Type := nat -> A * nat.

Definition ret {A : Type} (a : A) : Rand A := fun n => (a, n).

Definition bind {A B : Type} (m : Rand A) (k : A -> Rand B) : Rand B :=
  fun n => let (a, n') := m n in k a n'.

Notation "x <- m ;; k" := (bind m (fun x => k))
  (at level 61, m at next level, right associativity).

(** Checked steps: [None] once a division by a zero count was asked for. *)
Definition obind {A B : Type} (m : option A) (k : A -> option B) : option B :=
  match m with
  | Some a => k a
  | None => None
  end.

Notation "x <-? m ;; k" := (obind m (fun x => k))
  (at level 61, m at next level, right associativity).

(** [Math.max(...values)] over counts: [-Infinity] on no argument. *)
Inductive MaxCount : Type :=
| NegInfinity
| Finite (n : nat).

Definition Math_max_counts (values : list nat) : MaxCount :=
  fold_left
    (fun acc v =>
       match acc with
       | NegInfinity => Finite v
       | Finite a => Finite (Nat.max a v)
       end)
    values NegInfinity.

(** [count / maxCount]; a count over [-Infinity] is zero. *)
Definition div_by_max (count : nat) (maxCount : MaxCount) : option R :=
  match maxCount with
  | NegInfinity => Some 0
  | Finite O => None
  | Finite m => Some (INR count / INR m)
  end.

(** [Math.floor(a / b)] on two counts. *)
Definition floor_div (a b : nat) : option nat :=
  match b with
  | O => None
  | _ => Some (a / b)%nat
  end.

(** [sum / n] where [n] is an array length. *)
Definition div_by_length (sum : R) (n : nat) : option R :=
  match n with
  | O => None
  | _ => Some (sum / INR n)
  end.

(** [Array.prototype.slice(start, end)] for [0 <= start <= end]. *)
Definition slice {A : Type} (l : list A) (start end_ : nat) : list A :=
  firstn (end_ - start) (skipn start l).

(** [String.prototype.split] with a one-character separator. *)
Fixpoint split (sep : ascii) (s : string) : list string :=
  match s with
  | EmptyString => [EmptyString]
  | String c s' =>
      if Ascii.eqb c sep then EmptyString :: split sep s'
      else match split sep s' with
           | [] => [String c EmptyString]
           | w :: ws => String c w :: ws
           end
  end.

(** [Map<string, number>]: the entries in insertion order, keys unique. *)
Definition CountMap : Type := list (string * nat).

Fixpoint Map_get (m : CountMap) (key : string) : option nat :=
  match m with
  | [] => None
  | (k, v) :: m' => if String.eqb k key then Some v else Map_get m' key
  end.

(** [Map.prototype.set]: an existing key keeps its place, a new one goes
    last. *)
Fixpoint Map_set (m : CountMap) (key : string) (value : nat) : CountMap :=
  match m with
  | [] => [(key, value)]
  | (k, v) :: m' =>
      if String.eqb k key then (k, value) :: m'
      else (k, v) :: Map_set m' key value
  end.

Definition Map_values (m : CountMap) : list nat := map snd m.

(** [x || 0] on the answer of [Map.get]: [undefined] and [0] are falsy. *)
Definition or_zero (x : option nat) : nat :=
  match x with
  | Some n => n
  | None => O
  end.

(** ** The engine *)

Section Engine.

Variable host : Host.

Definition Math_random : Rand R := fun n => (random host n, S n).

Definition randomVariation (value percentage : R) : Rand R :=
  let variation := value * (percentage / 100) in
  r <- Math_random ;;
  ret (value + (r * 2 - 1) * variation).

Definition randomAngleVariation (angle maxDegrees : R) : Rand R :=
  r <- Math_random ;;
  ret (angle + (r * 2 - 1) * maxDegrees).

(** The template literal of the grid key. *)
Definition gridKeyOf (newPoint : DriftPoint) : string :=
  (toFixed host (lat newPoint) 3 ++ "_" ++ toFixed host (lng newPoint) 3)%string.

(** The variables the inner loop reads and writes. *)
Record Walk : Type := mkWalk {
  path : list DriftPoint;
  currentLat : R;
  currentLng : R;
  allPoints : list DriftPoint;
  pointCounts : CountMap
}.

(** One turn of [for (let hour = 1; hour <= simulationHours; hour++)]. *)
Definition hourStep (weather : MarineWeatherData) (w : Walk) : Rand Walk :=
  variedWindSpeed <- randomVariation (windSpeed weather) 20 ;;
  variedCurrentSpeed <- randomVariation (currentSpeed weather) 15 ;;
  variedWindDirection <- randomAngleVariation (windDirection weather) 15 ;;
  variedCurrentDirection <- randomAngleVariation (currentDirection weather) 10 ;;
  let newPoint :=
    calculateDrift (currentLat w) (currentLng w)
      variedWindSpeed variedWindDirection
      variedCurrentSpeed variedCurrentDirection 1 in
  let gridKey := gridKeyOf newPoint in
  ret {| path := path w ++ [newPoint];
         currentLat := lat newPoint;
         currentLng := lng newPoint;
         allPoints := allPoints w ++ [newPoint];
         pointCounts :=
           Map_set (pointCounts w) gridKey
             (or_zero (Map_get (pointCounts w) gridKey) + 1)%nat |}.

Fixpoint hourLoop (weather : MarineWeatherData) (turns : nat) (w : Walk)
  : Rand Walk :=
  match turns with
  | O => ret w
  | S turns' => w' <- hourStep weather w ;; hourLoop weather turns' w'
  end.

(** The variables the outer loop reads and writes. *)
Record Sim : Type := mkSim {
  sim_driftPaths : list (list DriftPoint);
  sim_allPoints : list DriftPoint;
  sim_pointCounts : CountMap
}.

(** One turn of [for (let pathIndex = 0; pathIndex < numPaths; pathIndex++)]. *)
Definition pathStep (startLat startLng : R) (weather : MarineWeatherData)
    (simulationHours : nat) (s : Sim) : Rand Sim :=
  w <- hourLoop weather simulationHours
         {| path := [{| lat := startLat; lng := startLng |}];
            currentLat := startLat;
            currentLng := startLng;
            allPoints := sim_allPoints s;
            pointCounts := sim_pointCounts s |} ;;
  ret {| sim_driftPaths := sim_driftPaths s ++ [path w];
         sim_allPoints := allPoints w;
         sim_pointCounts := pointCounts w |}.

Fixpoint pathLoop (startLat startLng : R) (weather : MarineWeatherData)
    (simulationHours turns : nat) (s : Sim) : Rand Sim :=
  match turns with
  | O => ret s
  | S turns' =>
      s' <- pathStep startLat startLng weather simulationHours s ;;
      pathLoop startLat startLng weather simulationHours turns' s'
  end.

(** The callback of [pointCounts.forEach]. *)
Definition heatmapEntry (maxCount : MaxCount) (entry : string * nat)
  : option HeatmapPoint :=
  let (key, count) := entry in
  let parts := map (parseFloat host) (split "_" key) in
  i <-? div_by_max count maxCount ;;
  Some {| h_lat := nth 0 parts 0; h_lng := nth 1 parts 0; intensity := i |}.

Fixpoint heatmapLoop (maxCount : MaxCount) (entries : CountMap)
    (heatmapPoints : list HeatmapPoint) : option (list HeatmapPoint) :=
  match entries with
  | [] => Some heatmapPoints
  | entry :: entries' =>
      p <-? heatmapEntry maxCount entry ;;
      heatmapLoop maxCount entries' (heatmapPoints ++ [p])
  end.

(** The body of [for (let h = 0; h < hours; h++)], [turns] turns from [h]. *)
Fixpoint centroidLoop (points : list DriftPoint) (pointsPerHour : nat)
    (turns h : nat) (centroids : list DriftPoint) : option (list DriftPoint) :=
  match turns with
  | O => Some centroids
  | S turns' =>
      let start := (h * pointsPerHour)%nat in
      let end_ := (start + pointsPerHour)%nat in
      let hourPoints := slice points start end_ in
      if (0 <? length hourPoints)%nat then
        avgLat <-? div_by_length
                     (fold_left (fun sum p => sum + lat p) hourPoints 0)
                     (length hourPoints) ;;
        avgLng <-? div_by_length
                     (fold_left (fun sum p => sum + lng p) hourPoints 0)
                     (length hourPoints) ;;
        centroidLoop points pointsPerHour turns' (S h)
          (centroids ++ [{| lat := avgLat; lng := avgLng |}])
      else centroidLoop points pointsPerHour turns' (S h) centroids
  end.

Definition calculateCentroidPoints (points : list DriftPoint) (hours : nat)
  : option (list DriftPoint) :=
  match points with
  | [] => Some []
  | _ =>
      pointsPerHour <-? floor_div (length points) hours ;;
      centroidLoop points pointsPerHour hours 0 []
  end.

(** [draws] is the number of values [Math.random] has handed out before
    the call. *)
Definition runMonteCarloSimulation (startLat startLng : R)
    (weather : MarineWeatherData) (simulationHours numPaths : nat)
    (draws : nat) : option DriftSimulationResult :=
  let (s, _) :=
    pathLoop startLat startLng weather simulationHours numPaths
      {| sim_driftPaths := []; sim_allPoints := []; sim_pointCounts := [] |}
      draws in
  let maxCount := Math_max_counts (Map_values (sim_pointCounts s)) in
  heatmapPoints <-? heatmapLoop maxCount (sim_pointCounts s) [] ;;
  predictedPoints <-? calculateCentroidPoints (sim_allPoints s) simulationHours ;;
  Some {| predictedPoints := predictedPoints;
          heatmapPoints := heatmapPoints;
          driftPaths := sim_driftPaths s |}.

(** [numPaths: number = 100]: the call that leaves [numPaths] out. *)
Definition runMonteCarloSimulation_default (startLat startLng : R)
    (weather : MarineWeatherData) (simulationHours : nat) (draws : nat)
  : option DriftSimulationResult :=
  runMonteCarloSimulation startLat startLng weather simulationHours 100 draws.

(** ** The run, read off the loops

    The points of one path and of all paths as functions of the position
    of the first draw; the loops are shown below to compute exactly
    these. *)

(** The point reached from [p] in one hour when the four draws of that
    hour are [random d .. random (d + 3)], in the order the loop body makes
    them: wind speed, current speed, wind direction, current direction. *)
Definition stepPoint (weather : MarineWeatherData) (p : DriftPoint) (d : nat)
  : DriftPoint :=
  calculateDrift (lat p) (lng p)
    (windSpeed weather
     + (random host d * 2 - 1) * (windSpeed weather * (20 / 100)))
    (windDirection weather + (random host (d + 2) * 2 - 1) * 15)
    (currentSpeed weather
     + (random host (d + 1) * 2 - 1) * (currentSpeed weather * (15 / 100)))
    (currentDirection weather + (random host (d + 3) * 2 - 1) * 10)
    1.

(** The [n] points that follow [p], the first draw being number [d]. *)
Fixpoint trail (weather : MarineWeatherData) (n : nat) (p : DriftPoint)
    (d : nat) : list DriftPoint :=
  match n with
  | O => []
  | S n' =>
      let q := stepPoint weather p d in
      q :: trail weather n' q (d + 4)
  end.

(** The trails of [n] successive paths of [hours] hours from [start]. *)
Fixpoint trails (weather : MarineWeatherData) (hours n : nat)
    (start : DriftPoint) (d : nat) : list (list DriftPoint) :=
  match n with
  | O => []
  | S n' =>
      trail weather hours start d
      :: trails weather hours n' start (d + 4 * hours)
  end.

(** The occupancy update of one sampled position. *)
Definition countPoint (m : CountMap) (p : DriftPoint) : CountMap :=
  Map_set m (gridKeyOf p) (or_zero (Map_get m (gridKeyOf p)) + 1)%nat.

(** The position a walk stands at. *)
Definition standingAt (w : Walk) : DriftPoint :=
  {| lat := currentLat w; lng := currentLng w |}.

(** Where a walk stands after the points [ps]. *)
Definition lastOf (ps : list DriftPoint) (p : DriftPoint) : DriftPoint :=
  last ps p.

(** The occupancy map of a pool of sampled positions. *)
Definition occupancy (pool : list DriftPoint) : CountMap :=
  fold_left countPoint pool [].

(** The greatest count of a non-empty array of counts. *)
Definition maxOf (values : list nat) : nat := fold_left Nat.max values O.

(** The heat-map cell emitted for one entry when the maximum is [m]. *)
Definition cellOf (m : nat) (entry : string * nat) : HeatmapPoint :=
  let parts := map (parseFloat host) (split "_" (fst entry)) in
  {| h_lat := nth 0 parts 0;
     h_lng := nth 1 parts 0;
     intensity := INR (snd entry) / INR m |}.

(** Every entry of the map counts at least one position. *)
Definition positiveCounts (m : CountMap) : Prop :=
  Forall (fun e => (1 <= snd e)%nat) m.

(** ** The specification's wording, for comparison *)

(** The variation factor applied to a base speed: [1 + fraction * u]. *)
Definition perturbed (base fraction u : R) : R := base * (1 + fraction * u).

(** A random draw seen as a value of [[-1, 1]]. *)
Definition unitDraw (d : nat) : R := random host d * 2 - 1.

End Engine.

(** East and north drift velocity in m/s. *)
Definition spec_vE (w thetaW c thetaC : R) : R :=
  (w / 3.6) * 0.035 * sin (thetaW * PI / 180) + c * sin (thetaC * PI / 180).

Definition spec_vN (w thetaW c thetaC : R) : R :=
  (w / 3.6) * 0.035 * cos (thetaW * PI / 180) + c * cos (thetaC * PI / 180).

Definition spec_dLat (vN h : R) : R :=
  ((vN * h * 3600 / 1000) / 6371) * (180 / PI).

Definition spec_dLng (lat vE h : R) : R :=
  ((vE * h * 3600 / 1000) / 6371) * (180 / PI) / cos (lat * PI / 180).

(** The flat pool: every path without its first point, in generation
    order. *)
Definition spec_pool (paths : list (list DriftPoint)) : list DriftPoint :=
  concat (map (@tl DriftPoint) paths).

Definition spec_chunkSize (pool : list DriftPoint) (hours : nat) : nat :=
  (length pool / hours)%nat.

(** The [h]-th contiguous chunk of the pool. *)
Definition spec_chunk (pool : list DriftPoint) (hours h : nat)
  : list DriftPoint :=
  firstn (spec_chunkSize pool hours)
         (skipn (h * spec_chunkSize pool hours) pool).

Definition sumR (xs : list R) : R := fold_right Rplus 0 xs.

(** The arithmetic mean of the latitudes and of the longitudes. *)
Definition spec_mean (ps : list DriftPoint) : DriftPoint :=
  {| lat := sumR (map lat ps) / INR (length ps);
     lng := sumR (map lng ps) / INR (length ps) |}.

Definition nonEmpty {A : Type} (l : list A) : bool :=
  match l with
  | [] => false
  | _ :: _ => true
  end.

Definition spec_predictedPoints (pool : list DriftPoint) (hours : nat)
  : list DriftPoint :=
  map spec_mean
      (filter nonEmpty (map (spec_chunk pool hours) (seq 0 hours))).

(** [M] is the greatest (smallest) element of [xs]. *)
Definition is_greatest (M : R) (xs : list R) : Prop :=
  In M xs /\ forall x, In x xs -> x <= M.

Definition is_smallest (m : R) (xs : list R) : Prop :=
  In m xs /\ forall x, In x xs -> m <= x.

(** ** Quantities read off a run *)

(** How many positions of a pool carry the grid key [key]. *)
Definition positionsInCell (host : Host) (key : string)
    (pool : list DriftPoint) : nat :=
  count_occ string_dec (map (gridKeyOf host) pool) key.

(** The point [p] moved by [dLng] degrees of longitude. *)
Definition shiftLng (dLng : R) (p : DriftPoint) : DriftPoint :=
  {| lat := lat p; lng := lng p + dLng |}.

(** The most a drifter can move north or south in [hours] hours, in
    degrees, under a wind of [w] km/h and a current of [c] m/s. *)
Definition driftReach (w c hours : R) : R :=
  (Rabs w / 3.6 * 0.035 + Rabs c) * Rabs hours * 3600 / 1000 / 6371
  * (180 / PI).

(** The larger of the latitude span and the longitude span of cells. *)
Definition maxSpan (cells : list HeatmapPoint) : R :=
  Rmax (Math_max (map h_lat cells) - Math_min (map h_lat cells))
       (Math_max (map h_lng cells) - Math_min (map h_lng cells)).


(** ** Weather provider (server/marine-api.ts, server/storage.ts) *)

(** A row of the [marine_weather] table; [fetchedAt] in milliseconds
    since the epoch, as [new Date(fetchedAt).getTime()] reads it. *)
Record MarineWeatherRow : Type := mkRow {
  row_id : string;
  row_lat : R;
  row_lng : R;
  row_windSpeed : R;
  row_windDirection : R;
  row_waveHeight : R;
  row_currentSpeed : R;
  row_currentDirection : R;
  row_fetchedAt : Z
}.

(** [InsertMarineWeather]: the row without [id] and [fetchedAt]. *)
Record InsertMarineWeather : Type := mkInsert {
  ins_lat : R;
  ins_lng : R;
  ins_weather : MarineWeatherData
}.

(** The fields of the Open-Meteo answers that the provider reads. *)
Record MarineHourly : Type := mkHourly {
  wave_height : option (list R);
  wind_wave_height : option (list R)
}.

Record OpenMeteoMarineResponse : Type := mkMarineResponse {
  hourly : option MarineHourly
}.

Record WeatherCurrent : Type := mkCurrent {
  wind_speed_10m : option R;
  wind_direction_10m : option R
}.

Record OpenMeteoWeatherResponse : Type := mkWeatherResponse {
  current : option WeatherCurrent
}.

(** What [Promise.all] of the two requests settles to. *)
Inductive ApiOutcome : Type :=
| ApiAnswers (marine : OpenMeteoMarineResponse)
             (weather : OpenMeteoWeatherResponse)
| ApiThrows.

(** [a?.b]: the member of a value that may be missing. *)
Definition chain {A B : Type} (a : option A) (b : A -> option B) : option B :=
  match a with
  | Some x => b x
  | None => None
  end.

(** [a ?? d]. *)
Definition nullish {A : Type} (a : option A) (d : A) : A :=
  match a with
  | Some x => x
  | None => d
  end.

(** [x < y] as a boolean. *)
Definition Rltb (x y : R) : bool := if Rlt_dec x y then true else false.

(** The integer part of [x], rounded towards zero. *)
Definition Rtrunc (x : R) : Z :=
  if Rle_dec 0 x then Int_part x else (- Int_part (- x))%Z.

(** [x % m] on numbers: the remainder has the sign of [x]. *)
Definition JS_rem (x m : R) : R := x - m * IZR (Rtrunc (x / m)).

(** The callback of [results.find]: within 0.05 degrees both ways. *)
Definition isNearby (lat lng : R) (w : MarineWeatherRow) : bool :=
  Rltb (Rabs (row_lat w - lat)) 0.05 && Rltb (Rabs (row_lng w - lng)) 0.05.

(** [getLatestMarineWeather], after the query: [results] are the rows the
    query answered (the ten most recently fetched, most recent first) and
    [now] is [Date.now()]. *)
Definition getLatestMarineWeather (results : list MarineWeatherRow)
    (lat lng : R) (now : Z) : option MarineWeatherRow :=
  match find (isNearby lat lng) results with
  | Some nearby =>
      let ageMs := (now - row_fetchedAt nearby)%Z in
      if (ageMs <? 30 * 60 * 1000)%Z then Some nearby else None
  | None => None
  end.

(** The weather sample made of a row. *)
Definition weatherOfRow (cached : MarineWeatherRow) : MarineWeatherData :=
  {| windSpeed := row_windSpeed cached;
     windDirection := row_windDirection cached;
     waveHeight := row_waveHeight cached;
     currentSpeed := row_currentSpeed cached;
     currentDirection := row_currentDirection cached |}.

(** The [catch] branch of [fetchMarineWeather]. *)
Definition fallbackWeather (host : Host)
  : Rand (MarineWeatherData * option InsertMarineWeather) :=
  r1 <- Math_random host ;;
  r2 <- Math_random host ;;
  r3 <- Math_random host ;;
  r4 <- Math_random host ;;
  r5 <- Math_random host ;;
  ret ({| windSpeed := 12 + r1 * 8;
          windDirection := r2 * 360;
          waveHeight := 1 + r3 * 2;
          currentSpeed := 0.2 + r4 * 0.5;
          currentDirection := r5 * 360 |}, None).

(** [fetchMarineWeather].  [results] and [now] are what the cache lookup
    reads, [api] what the two requests settle to and [saveWorks] whether
    [storage.saveMarineWeather] resolves (it is awaited inside the [try]).
    The answer is the weather sample returned and the row written to the
    table, if any. *)
Definition fetchMarineWeather (host : Host) (lat lng : R)
    (results : list MarineWeatherRow) (now : Z)
    (api : ApiOutcome) (saveWorks : bool)
  : Rand (MarineWeatherData * option InsertMarineWeather) :=
  match getLatestMarineWeather results lat lng now with
  | Some cached => ret (weatherOfRow cached, None)
  | None =>
      match api with
      | ApiAnswers marineData weatherData =>
          let windSpeed :=
            nullish (chain (current weatherData) wind_speed_10m) 15 in
          let windDirection :=
            nullish (chain (current weatherData) wind_direction_10m) 180 in
          let waveHeight :=
            nullish
              (chain (chain (hourly marineData) wave_height)
                     (fun a => nth_error a 0))
              (nullish
                 (chain (chain (hourly marineData) wind_wave_height)
                        (fun a => nth_error a 0))
                 1.5) in
          r1 <- Math_random host ;;
          let currentSpeed := 0.3 + r1 * 0.4 in
          r2 <- Math_random host ;;
          let currentDirection :=
            JS_rem (windDirection + 30 + r2 * 60) 360 in
          let weatherResult :=
            {| windSpeed := windSpeed;
               windDirection := windDirection;
               waveHeight := waveHeight;
               currentSpeed := currentSpeed;
               currentDirection := currentDirection |} in
          let insertWeather :=
            {| ins_lat := lat; ins_lng := lng; ins_weather := weatherResult |} in
          if saveWorks then ret (weatherResult, Some insertWeather)
          else fallbackWeather host
      | ApiThrows => fallbackWeather host
      end
  end.

Definition getWindDescription (speed : R) : string :=
  if Rltb speed 5 then "Calm"
  else if Rltb speed 15 then "Light breeze"
  else if Rltb speed 25 then "Moderate breeze"
  else if Rltb speed 40 then "Fresh breeze"
  else if Rltb speed 55 then "Strong breeze"
  else "Gale".

Definition getSeaStateDescription (waveHeight : R) : string :=
  if Rltb waveHeight 0.5 then "Calm"
  else if Rltb waveHeight 1.25 then "Smooth"
  else if Rltb waveHeight 2.5 then "Slight"
  else if Rltb waveHeight 4 then "Moderate"
  else if Rltb waveHeight 6 then "Rough"
  else "Very rough".

(** [Math.round]: the nearest integer, halves going up. *)
Definition Math_round (x : R) : Z := Int_part (x + 1 / 2).

(** [formatDirection] of the weather card (client, MarineWeatherCard):
    the compass point shown for a direction; [None] is [undefined], which
    indexing the array with a negative number gives. *)
Definition formatDirection (degrees : R) : option string :=
  let directions := ["N"; "NE"; "E"; "SE"; "S"; "SW"; "W"; "NW"]%string in
  let index := Z.rem (Math_round (degrees / 45)) 8 in
  if (index <? 0)%Z then None else nth_error directions (Z.to_nat index).

(** The rows are ordered most recently fetched first. *)
Fixpoint mostRecentFirst (results : list MarineWeatherRow) : Prop :=
  match results with
  | [] => True
  | w :: rest =>
      (forall w', In w' rest -> (row_fetchedAt w' <= row_fetchedAt w)%Z) /\
      mostRecentFirst rest
  end.

(** ** Inputs used in the examples *)

(** A host whose draws alternate between 1/4 and 3/4 and whose [toFixed]
    puts every position in one grid cell. *)
Definition demoHost : Host :=
  {| random := fun n => if Nat.even n then 1 / 4 else 3 / 4;
     toFixed := fun _ _ => "0.000"%string;
     parseFloat := fun _ => 0 |}.

(** The weather of the specification's scenario off the Chennai coast. *)
Definition chennaiWeather : MarineWeatherData :=
  {| windSpeed := 20; windDirection := 180; waveHeight := 1.5;
     currentSpeed := 0.5; currentDirection := 200 |}.

(** No wind and no current. *)
Definition calmWeather : MarineWeatherData :=
  {| windSpeed := 0; windDirection := 180; waveHeight := 1.5;
     currentSpeed := 0; currentDirection := 200 |}.

(** A weather row fetched near Chennai and two heat-map cells. *)
Definition demoRow : MarineWeatherRow :=
  {| row_id := "w1"; row_lat := 13.1; row_lng := 80.3;
     row_windSpeed := 18; row_windDirection := 170; row_waveHeight := 1.2;
     row_currentSpeed := 0.4; row_currentDirection := 190;
     row_fetchedAt := 1000000 |}.

Definition demoCells : list HeatmapPoint :=
  [ {| h_lat := 13.05; h_lng := 80.25; intensity := 1 |};
    {| h_lat := 13.15; h_lng := 80.3; intensity := 0.5 |} ].

(** * Theorems *)

(** ** Kinematics *)

(** C1. For every position, wind, current and duration, [calculateDrift]
    returns exactly [{ lat + dLat, lng + dLng }], where [dLat] and [dLng]
    are obtained from the east and north drift velocities [vE] and [vN] of
    the specification. *)
Theorem calculateDrift_formula :
  forall lat lng w thetaW c thetaC h : R,
    calculateDrift lat lng w thetaW c thetaC h =
    {| lat := lat + spec_dLat (spec_vN w thetaW c thetaC) h;
       lng := lng + spec_dLng lat (spec_vE w thetaW c thetaC) h |}.
Proof.
  intros. unfold calculateDrift, spec_dLat, spec_dLng, spec_vN, spec_vE, R_km.
  reflexivity.
Qed.

(** C8. With a duration of zero hours [calculateDrift] returns the input
    position, whatever the wind and the current. *)
Theorem calculateDrift_zero_hours :
  forall lat lng w thetaW c thetaC : R,
    calculateDrift lat lng w thetaW c thetaC 0 = {| lat := lat; lng := lng |}.
Proof.
  intros. unfold calculateDrift, R_km, Rdiv. f_equal; ring.
Qed.

(** With no wind and no current the position does not move. *)
Lemma calculateDrift_zero_speed :
  forall lat lng thetaW thetaC h : R,
    calculateDrift lat lng 0 thetaW 0 thetaC h = {| lat := lat; lng := lng |}.
Proof.
  intros. unfold calculateDrift, R_km, Rdiv. f_equal; ring.
Qed.

(** ** The loops compute the trails *)

Section EngineProofs.

Variable host : Host.

Lemma hourStep_eq :
  forall weather w d,
    hourStep host weather w d =
    (let q := stepPoint host weather (standingAt w) d in
     {| path := path w ++ [q];
        currentLat := lat q;
        currentLng := lng q;
        allPoints := allPoints w ++ [q];
        pointCounts := countPoint host (pointCounts w) q |},
     (d + 4)%nat).
Proof.
  intros weather w d.
  unfold hourStep, randomVariation, randomAngleVariation, Math_random, bind, ret.
  unfold stepPoint, standingAt, countPoint. cbn [lat lng].
  replace (d + 1)%nat with (S d) by lia.
  replace (d + 2)%nat with (S (S d)) by lia.
  replace (d + 3)%nat with (S (S (S d))) by lia.
  replace (d + 4)%nat with (S (S (S (S d)))) by lia.
  reflexivity.
Qed.

Lemma last_cons_default :
  forall (A : Type) (l : list A) (q d : A), last (q :: l) d = last l q.
Proof.
  intros A l. induction l as [|a l IH]; intros q d.
  - reflexivity.
  - change (last (q :: a :: l) d) with (last (a :: l) d).
    rewrite (IH a d), (IH a q). reflexivity.
Qed.

Lemma hourLoop_eq :
  forall weather n w d,
    hourLoop host weather n w d =
    (let ps := trail host weather n (standingAt w) d in
     {| path := path w ++ ps;
        currentLat := lat (lastOf ps (standingAt w));
        currentLng := lng (lastOf ps (standingAt w));
        allPoints := allPoints w ++ ps;
        pointCounts := fold_left (countPoint host) ps (pointCounts w) |},
     (d + 4 * n)%nat).
Proof.
  intros weather n. induction n as [|n IH]; intros w d.
  - cbn. unfold ret. destruct w; cbn. rewrite !app_nil_r.
    f_equal. lia.
  - cbn [hourLoop]. unfold bind. rewrite hourStep_eq. cbv zeta.
    rewrite IH. cbv zeta. cbn [path currentLat currentLng allPoints pointCounts].
    cbn [trail]. cbv zeta.
    set (q := stepPoint host weather (standingAt w) d). clearbody q.
    assert (Hq : standingAt
              {| path := path w ++ [q]; currentLat := lat q;
                 currentLng := lng q; allPoints := allPoints w ++ [q];
                 pointCounts := countPoint host (pointCounts w) q |} = q).
    { unfold standingAt; cbn. destruct q; reflexivity. }
    rewrite Hq. rewrite <- !app_assoc. cbn [app fold_left].
    unfold lastOf. rewrite last_cons_default.
    f_equal. lia.
Qed.

Lemma pathStep_eq :
  forall startLat startLng weather hours s d,
    pathStep host startLat startLng weather hours s d =
    (let start := {| lat := startLat; lng := startLng |} in
     let ps := trail host weather hours start d in
     {| sim_driftPaths := sim_driftPaths s ++ [start :: ps];
        sim_allPoints := sim_allPoints s ++ ps;
        sim_pointCounts := fold_left (countPoint host) ps (sim_pointCounts s) |},
     (d + 4 * hours)%nat).
Proof.
  intros. unfold pathStep, bind, ret. rewrite hourLoop_eq. reflexivity.
Qed.

Lemma pathLoop_eq :
  forall startLat startLng weather hours n s d,
    pathLoop host startLat startLng weather hours n s d =
    (let start := {| lat := startLat; lng := startLng |} in
     let tss := trails host weather hours n start d in
     {| sim_driftPaths := sim_driftPaths s ++ map (cons start) tss;
        sim_allPoints := sim_allPoints s ++ concat tss;
        sim_pointCounts :=
          fold_left (countPoint host) (concat tss) (sim_pointCounts s) |},
     (d + 4 * hours * n)%nat).
Proof.
  intros startLat startLng weather hours n.
  induction n as [|n IH]; intros s d.
  - cbn. unfold ret. destruct s; cbn. rewrite !app_nil_r. f_equal. lia.
  - cbn [pathLoop]. unfold bind. rewrite pathStep_eq. cbv zeta.
    rewrite IH. cbv zeta. cbn [sim_driftPaths sim_allPoints sim_pointCounts].
    cbn [trails map concat]. rewrite <- !app_assoc. cbn [app].
    rewrite fold_left_app. f_equal. lia.
Qed.

(** *** Shape of the trails *)

Lemma trail_length :
  forall weather n p d, length (trail host weather n p d) = n.
Proof.
  intros weather n. induction n as [|n IH]; intros p d; cbn.
  - reflexivity.
  - now rewrite IH.
Qed.

Lemma trails_length :
  forall weather hours n start d,
    length (trails host weather hours n start d) = n.
Proof.
  intros weather hours n. induction n as [|n IH]; intros start d; cbn.
  - reflexivity.
  - now rewrite IH.
Qed.

Lemma trails_each_length :
  forall weather hours n start d,
    Forall (fun t => length t = hours) (trails host weather hours n start d).
Proof.
  intros weather hours n. induction n as [|n IH]; intros start d; cbn.
  - constructor.
  - constructor; [apply trail_length | apply IH].
Qed.

Lemma concat_trails_length :
  forall weather hours n start d,
    length (concat (trails host weather hours n start d)) = (n * hours)%nat.
Proof.
  intros weather hours n. induction n as [|n IH]; intros start d; cbn.
  - reflexivity.
  - rewrite length_app, trail_length, IH. reflexivity.
Qed.

Lemma nth_trails :
  forall weather hours n start d i,
    (i < n)%nat ->
    nth i (trails host weather hours n start d) [] =
    trail host weather hours start (d + 4 * (i * hours))%nat.
Proof.
  intros weather hours n. induction n as [|n IH]; intros start d i Hi.
  - lia.
  - destruct i as [|i]; cbn [trails nth].
    + f_equal. lia.
    + rewrite IH by lia. f_equal. lia.
Qed.

(** Each point of a path is one step away from the point before it. *)
Lemma trail_step :
  forall weather n p d h dflt,
    (h < n)%nat ->
    nth (S h) (p :: trail host weather n p d) dflt =
    stepPoint host weather (nth h (p :: trail host weather n p d) dflt)
      (d + 4 * h)%nat.
Proof.
  intros weather n. induction n as [|n IH]; intros p d h dflt Hh.
  - lia.
  - destruct h as [|h].
    + cbn. f_equal. lia.
    + cbn [trail]. cbv zeta.
      change (nth (S (S h)) (p :: ?l) dflt) with (nth (S h) l dflt).
      change (nth (S h) (p :: ?l) dflt) with (nth h l dflt).
      rewrite IH by lia. f_equal. lia.
Qed.

(** *** The centroid loop *)

Lemma fold_left_sum :
  forall (f : DriftPoint -> R) ps a,
    fold_left (fun sum p => sum + f p) ps a = a + sumR (map f ps).
Proof.
  intros f ps. induction ps as [|p ps IH]; intros a.
  - unfold sumR. cbn. lra.
  - cbn [fold_left]. rewrite IH. unfold sumR. cbn. lra.
Qed.

Lemma slice_chunk :
  forall (A : Type) (l : list A) h size,
    slice l (h * size) (h * size + size) = firstn size (skipn (h * size) l).
Proof.
  intros. unfold slice. f_equal. lia.
Qed.

Lemma centroidLoop_eq :
  forall points size n h centroids,
    centroidLoop points size n h centroids =
    Some (centroids ++
          map spec_mean
            (filter nonEmpty
               (map (fun i => firstn size (skipn (i * size) points))
                    (seq h n)))).
Proof.
  intros points size n. induction n as [|n IH]; intros h centroids.
  - cbn. now rewrite app_nil_r.
  - cbn [centroidLoop seq map filter]. cbv zeta. rewrite slice_chunk.
    destruct (firstn size (skipn (h * size) points)) as [|p ps] eqn:E.
    + cbn. apply IH.
    + cbn [length Nat.ltb Nat.leb nonEmpty div_by_length obind map].
      rewrite IH. rewrite <- app_assoc. cbn [app].
      do 3 f_equal. unfold spec_mean.
      rewrite !fold_left_sum, !Rplus_0_l. reflexivity.
Qed.

Lemma spec_predictedPoints_nil :
  forall hours, spec_predictedPoints [] hours = [].
Proof.
  intros hours. unfold spec_predictedPoints.
  assert (H : forall l, filter nonEmpty (map (spec_chunk [] hours) l) = []).
  { induction l as [|i l IH]; cbn; [reflexivity|].
    unfold spec_chunk at 1. rewrite skipn_nil, firstn_nil. cbn. exact IH. }
  now rewrite H.
Qed.

(** The chunked means are what [calculateCentroidPoints] returns, and it
    divides by no zero count, as soon as the pool is empty or [hours] is
    positive. *)
Lemma calculateCentroidPoints_eq :
  forall points hours,
    points = [] \/ (0 < hours)%nat ->
    calculateCentroidPoints points hours =
    Some (spec_predictedPoints points hours).
Proof.
  intros points hours Hok. unfold calculateCentroidPoints.
  destruct points as [|p ps].
  - now rewrite spec_predictedPoints_nil.
  - destruct Hok as [Hnil | Hpos]; [discriminate|].
    unfold floor_div. destruct hours as [|hours]; [lia|].
    cbn [obind]. rewrite centroidLoop_eq. reflexivity.
Qed.

(** *** The occupancy map and its maximum *)

Lemma fold_max_ge_init :
  forall vs a, (a <= fold_left Nat.max vs a)%nat.
Proof.
  induction vs as [|v vs IH]; intros a; cbn; [lia|].
  specialize (IH (Nat.max a v)). lia.
Qed.

Lemma fold_max_ge_all :
  forall vs a x, In x vs -> (x <= fold_left Nat.max vs a)%nat.
Proof.
  induction vs as [|v vs IH]; intros a x Hin; cbn; [contradiction|].
  destruct Hin as [-> | Hin].
  - pose proof (fold_max_ge_init vs (Nat.max a x)). lia.
  - now apply IH.
Qed.

Lemma fold_max_in :
  forall vs a,
    fold_left Nat.max vs a = a \/ In (fold_left Nat.max vs a) vs.
Proof.
  induction vs as [|v vs IH]; intros a; cbn; [now left|].
  destruct (IH (Nat.max a v)) as [E | Hin]; [|now right; right].
  rewrite E. destruct (Nat.max_spec a v) as [[_ ->] | [_ ->]]; auto.
Qed.

Lemma maxOf_ge :
  forall vs x, In x vs -> (x <= maxOf vs)%nat.
Proof. intros. now apply fold_max_ge_all. Qed.

Lemma maxOf_in :
  forall vs, vs <> [] -> In (maxOf vs) vs.
Proof.
  intros [|v vs] Hne; [congruence|]. unfold maxOf. cbn [fold_left Nat.max].
  destruct (fold_max_in vs v) as [E | Hin]; [rewrite E; now left | now right].
Qed.

Lemma Math_max_counts_eq :
  forall vs, vs <> [] -> Math_max_counts vs = Finite (maxOf vs).
Proof.
  intros [|v vs] Hne; [congruence|]. unfold Math_max_counts, maxOf.
  cbn [fold_left Nat.max]. clear Hne. revert v.
  induction vs as [|x vs IH]; intros v; cbn; [reflexivity | apply IH].
Qed.

Lemma heatmapLoop_eq :
  forall m entries acc,
    (0 < m)%nat ->
    heatmapLoop host (Finite m) entries acc =
    Some (acc ++ map (cellOf host m) entries).
Proof.
  intros m entries. induction entries as [|[key count] entries IH];
    intros acc Hm; cbn [heatmapLoop map].
  - now rewrite app_nil_r.
  - unfold heatmapEntry, div_by_max. destruct m as [|m]; [lia|].
    cbn [obind]. rewrite IH by lia. rewrite <- app_assoc. reflexivity.
Qed.

Lemma Map_set_positive :
  forall m key v,
    positiveCounts m -> (1 <= v)%nat -> positiveCounts (Map_set m key v).
Proof.
  unfold positiveCounts.
  induction m as [|[k c] m IH]; intros key v Hm Hv; cbn.
  - repeat constructor. exact Hv.
  - inversion Hm; subst. destruct (String.eqb k key).
    + constructor; [exact Hv | assumption].
    + constructor; [assumption | now apply IH].
Qed.

Lemma Map_set_not_nil :
  forall m key v, Map_set m key v <> [].
Proof.
  intros [|[k c] m] key v; cbn; [discriminate|].
  destruct (String.eqb k key); discriminate.
Qed.

Lemma fold_countPoint_positive :
  forall ps m,
    positiveCounts m -> positiveCounts (fold_left (countPoint host) ps m).
Proof.
  induction ps as [|p ps IH]; intros m Hm; cbn; [exact Hm|].
  apply IH. unfold countPoint. apply Map_set_positive; [exact Hm | lia].
Qed.

Lemma fold_countPoint_not_nil :
  forall ps m,
    ps <> [] \/ m <> [] -> fold_left (countPoint host) ps m <> [].
Proof.
  induction ps as [|p ps IH]; intros m Hne; cbn.
  - destruct Hne; congruence.
  - apply IH. right. apply Map_set_not_nil.
Qed.

(** *** Grid keys *)

Lemma split_not_nil :
  forall sep s, split sep s <> [].
Proof.
  intros sep s. destruct s as [|c s]; cbn; [discriminate|].
  destruct (Ascii.eqb c sep); [discriminate|].
  destruct (split sep s); discriminate.
Qed.

(** A key always splits in two parts at least, so the two coordinates of
    a heat-map cell are read from the key. *)
Lemma split_gridKey_parts :
  forall p, (2 <= length (split "_" (gridKeyOf host p)))%nat.
Proof.
  intros p. unfold gridKeyOf.
  generalize (toFixed host (lat p) 3) (toFixed host (lng p) 3).
  intros a b. change ("_" ++ b)%string with (String "_" b).
  induction a as [|c a IH]; cbn [String.append].
  - cbn. pose proof (split_not_nil "_" b).
    destruct (split "_" b); [congruence | cbn; lia].
  - cbn [split]. destruct (Ascii.eqb c "_").
    + cbn [length]. lia.
    + destruct (split "_" (a ++ String "_" b)%string); cbn in *; lia.
Qed.

(** *** The whole run *)

(** The run always returns a result (it divides by no zero count), and
    the result is made of the trails: the paths are the trails behind the
    start position, the pool is their concatenation, the heat map has one
    cell per entry of the occupancy map, in insertion order. *)
Lemma runMonteCarloSimulation_eq :
  forall startLat startLng weather hours numPaths d,
    runMonteCarloSimulation host startLat startLng weather hours numPaths d =
    (let start := {| lat := startLat; lng := startLng |} in
     let tss := trails host weather hours numPaths start d in
     let counts := fold_left (countPoint host) (concat tss) [] in
     Some {| predictedPoints := spec_predictedPoints (concat tss) hours;
             heatmapPoints := map (cellOf host (maxOf (Map_values counts))) counts;
             driftPaths := map (cons start) tss |}).
Proof.
  intros. unfold runMonteCarloSimulation. rewrite pathLoop_eq. cbv zeta.
  cbn [sim_driftPaths sim_allPoints sim_pointCounts app].
  set (tss := trails host weather hours numPaths _ d).
  set (counts := fold_left (countPoint host) (concat tss) []).
  assert (Hpos : positiveCounts counts)
    by (apply fold_countPoint_positive; constructor).
  assert (Hheat : heatmapLoop host (Math_max_counts (Map_values counts)) counts []
                  = Some (map (cellOf host (maxOf (Map_values counts))) counts)).
  { destruct counts as [|e counts'] eqn:E; [reflexivity|].
    rewrite <- E in *. 
    assert (Hne : Map_values counts <> []) by (rewrite E; discriminate).
    rewrite Math_max_counts_eq by exact Hne.
    apply heatmapLoop_eq.
    pose proof (maxOf_in _ Hne) as Hin. unfold Map_values in Hin.
    apply in_map_iff in Hin. destruct Hin as [e' [He' Hin]].
    unfold positiveCounts in Hpos. rewrite Forall_forall in Hpos.
    specialize (Hpos e' Hin). unfold Map_values. lia. }
  rewrite Hheat. cbn [obind].
  rewrite calculateCentroidPoints_eq; [reflexivity|].
  destruct hours as [|hours]; [left | right; lia].
  apply length_zero_iff_nil. unfold tss.
  rewrite concat_trails_length. lia.
Qed.

(** Opens a goal [exists r, runMonteCarloSimulation ... = Some r /\ P r]
    with the result of the lemma above. *)
Ltac run_result :=
  eexists; split; [apply runMonteCarloSimulation_eq|]; cbv zeta;
  cbn [driftPaths predictedPoints heatmapPoints].

Lemma spec_pool_trails :
  forall (start : DriftPoint) tss, spec_pool (map (cons start) tss) = concat tss.
Proof.
  intros. unfold spec_pool. rewrite map_map. cbn [tl]. now rewrite map_id.
Qed.

(** ** The drift paths *)

(** C2. For [simulationHours] in 1..12 and [numPaths] in 10..200 the run
    returns exactly [numPaths] drift paths, each of [simulationHours + 1]
    points, the first of which is the start position. *)
Theorem driftPaths_shape :
  forall startLat startLng weather simulationHours numPaths draws,
    (1 <= simulationHours <= 12)%nat ->
    (10 <= numPaths <= 200)%nat ->
    exists r,
      runMonteCarloSimulation host startLat startLng weather
        simulationHours numPaths draws = Some r /\
      length (driftPaths r) = numPaths /\
      forall p, In p (driftPaths r) ->
        length p = (simulationHours + 1)%nat /\
        nth_error p 0 = Some {| lat := startLat; lng := startLng |}.
Proof.
  intros startLat startLng weather hours numPaths d _ _.
  run_result. split.
  - now rewrite length_map, trails_length.
  - intros p Hin. apply in_map_iff in Hin. destruct Hin as [t [<- Hin]].
    pose proof (trails_each_length weather hours numPaths
                  {| lat := startLat; lng := startLng |} d) as Hall.
    rewrite Forall_forall in Hall. specialize (Hall t Hin).
    cbn [length nth_error]. split; [lia | reflexivity].
Qed.

(** ** The predicted points *)

(** C4. The predicted points are the means of the contiguous chunks of the
    flat pool: the pool is every path without its first point, in
    generation order; it is cut into [simulationHours] chunks of
    [floor (poolSize / simulationHours)] positions, what is left at the
    tail belonging to no chunk; each non-empty chunk gives the mean of its
    latitudes and the mean of its longitudes. *)
Theorem predictedPoints_chunk_means :
  forall startLat startLng weather simulationHours numPaths draws,
    exists r,
      runMonteCarloSimulation host startLat startLng weather
        simulationHours numPaths draws = Some r /\
      predictedPoints r =
      spec_predictedPoints (spec_pool (driftPaths r)) simulationHours.
Proof.
  intros startLat startLng weather hours numPaths d.
  run_result. now rewrite spec_pool_trails.
Qed.

(** ** Degenerate runs *)

Lemma trails_zero_hours :
  forall weather n start d, concat (trails host weather 0 n start d) = [].
Proof.
  intros. apply length_zero_iff_nil. rewrite concat_trails_length. lia.
Qed.

(** C6. With [numPaths = 0] or [simulationHours = 0] the run returns a
    result, having divided by no zero count (and, no position being
    sampled, having called [calculateDrift] not once): the heat map and
    the predicted points are empty, and so are the drift paths when
    [numPaths = 0]. *)
Theorem degenerate_run_is_empty :
  forall startLat startLng weather simulationHours numPaths draws,
    numPaths = O \/ simulationHours = O ->
    exists r,
      runMonteCarloSimulation host startLat startLng weather
        simulationHours numPaths draws = Some r /\
      heatmapPoints r = [] /\
      predictedPoints r = [] /\
      (numPaths = O -> driftPaths r = []) /\
      spec_pool (driftPaths r) = [].
Proof.
  intros startLat startLng weather hours numPaths d Hdeg.
  run_result.
  assert (Hpool : concat (trails host weather hours numPaths
                            {| lat := startLat; lng := startLng |} d) = []).
  { destruct Hdeg as [-> | ->]; [reflexivity | apply trails_zero_hours]. }
  rewrite spec_pool_trails, Hpool. cbn [fold_left map].
  repeat split.
  - apply spec_predictedPoints_nil.
  - intros ->. reflexivity.
Qed.

(** ** No wind and no current *)

Lemma stepPoint_zero_speed :
  forall weather p d,
    windSpeed weather = 0 -> currentSpeed weather = 0 ->
    stepPoint host weather p d = p.
Proof.
  intros weather p d Hw Hc. unfold stepPoint. rewrite Hw, Hc.
  replace (0 + (random host d * 2 - 1) * (0 * (20 / 100))) with 0 by lra.
  replace (0 + (random host (d + 1) * 2 - 1) * (0 * (15 / 100))) with 0 by lra.
  rewrite calculateDrift_zero_speed. destruct p; reflexivity.
Qed.

Lemma trail_zero_speed :
  forall weather n p d,
    windSpeed weather = 0 -> currentSpeed weather = 0 ->
    trail host weather n p d = repeat p n.
Proof.
  intros weather n p d Hw Hc. revert d.
  induction n as [|n IH]; intros d; cbn; [reflexivity|].
  rewrite stepPoint_zero_speed by assumption. now rewrite IH.
Qed.

(** C7. When the wind speed and the current speed of the weather sample
    are zero: a varied speed is zero whatever the draw; [calculateDrift]
    with zero speeds returns its input position for all directions and
    hours; and every point of every path of the run is the start
    position. *)
Theorem zero_speed_no_motion :
  forall startLat startLng weather simulationHours numPaths draws,
    windSpeed weather = 0 ->
    currentSpeed weather = 0 ->
    (forall percentage d,
        fst (randomVariation host (windSpeed weather) percentage d) = 0 /\
        fst (randomVariation host (currentSpeed weather) percentage d) = 0) /\
    (forall lat lng thetaW thetaC hours,
        calculateDrift lat lng (windSpeed weather) thetaW
          (currentSpeed weather) thetaC hours =
        {| lat := lat; lng := lng |}) /\
    exists r,
      runMonteCarloSimulation host startLat startLng weather
        simulationHours numPaths draws = Some r /\
      forall p q, In p (driftPaths r) -> In q p ->
        q = {| lat := startLat; lng := startLng |}.
Proof.
  intros startLat startLng weather hours numPaths d Hw Hc.
  rewrite Hw, Hc. split; [|split].
  - intros percentage k.
    unfold randomVariation, Math_random, bind, ret. cbn. split; lra.
  - intros. apply calculateDrift_zero_speed.
  - run_result. intros p q Hp Hq.
    apply in_map_iff in Hp. destruct Hp as [t [<- Ht]].
    destruct Hq as [<- | Hq]; [reflexivity|].
    assert (Hall : forall n k t', In t' (trails host weather hours n
                     {| lat := startLat; lng := startLng |} k) ->
                   t' = repeat {| lat := startLat; lng := startLng |} hours).
    { induction n as [|n IH]; intros k t' Hin; cbn in Hin; [contradiction|].
      destruct Hin as [<- | Hin].
      - now apply trail_zero_speed.
      - now apply (IH _ _ Hin). }
    rewrite (Hall _ _ _ Ht) in Hq. now apply repeat_spec in Hq.
Qed.

(** ** The heat map *)

Lemma ratio_in_unit_interval :
  forall a m : nat, (1 <= a <= m)%nat -> 0 < INR a / INR m <= 1.
Proof.
  intros a m H.
  assert (0 < INR a) by (apply lt_0_INR; lia).
  assert (0 < INR m) by (apply lt_0_INR; lia).
  assert (INR a <= INR m) by (apply le_INR; lia).
  split.
  - now apply Rdiv_lt_0_compat.
  - apply Rmult_le_reg_r with (INR m); [assumption|].
    unfold Rdiv. rewrite Rmult_assoc, Rinv_l by lra. lra.
Qed.

(** C3. In a run of at least one path and one hour every heat-map point
    has an intensity in (0, 1], and one of them has intensity exactly 1:
    the cells are the entries of the occupancy map of the pool, each with
    its count over the greatest count, and an entry whose count is the
    greatest gets intensity 1. *)
Theorem heatmap_normalised :
  forall startLat startLng weather simulationHours numPaths draws,
    (1 <= numPaths)%nat ->
    (1 <= simulationHours)%nat ->
    exists r,
      runMonteCarloSimulation host startLat startLng weather
        simulationHours numPaths draws = Some r /\
      (forall c, In c (heatmapPoints r) -> 0 < intensity c <= 1) /\
      (exists c, In c (heatmapPoints r) /\ intensity c = 1) /\
      (let counts := occupancy host (spec_pool (driftPaths r)) in
       let maxCount := maxOf (Map_values counts) in
       heatmapPoints r = map (cellOf host maxCount) counts /\
       (forall e, In e counts -> (1 <= snd e <= maxCount)%nat) /\
       (forall e, In e counts -> snd e = maxCount ->
                  intensity (cellOf host maxCount e) = 1)).
Proof.
  intros startLat startLng weather hours numPaths d Hn Hh.
  run_result. rewrite spec_pool_trails. unfold occupancy.
  set (pool := concat (trails host weather hours numPaths _ d)).
  set (counts := fold_left (countPoint host) pool []).
  set (M := maxOf (Map_values counts)).
  assert (Hpool : pool <> []).
  { intros E. apply (f_equal (@length _)) in E. unfold pool in E.
    rewrite concat_trails_length in E. cbn in E. nia. }
  assert (Hpos : positiveCounts counts)
    by (apply fold_countPoint_positive; constructor).
  assert (Hne : Map_values counts <> []).
  { unfold Map_values. intros E. apply map_eq_nil in E.
    revert E. apply fold_countPoint_not_nil. now left. }
  assert (Hbound : forall e, In e counts -> (1 <= snd e <= M)%nat).
  { intros e He. split.
    - unfold positiveCounts in Hpos. rewrite Forall_forall in Hpos. auto.
    - apply maxOf_ge. unfold Map_values. now apply in_map. }
  assert (Hone : forall e, In e counts -> snd e = M ->
                           intensity (cellOf host M e) = 1).
  { intros e He HM. cbn [cellOf intensity]. rewrite HM.
    apply Rinv_r. apply not_0_INR. specialize (Hbound e He). lia. }
  repeat split; try (apply Hbound; assumption); auto.
  - apply in_map_iff in H. destruct H as [e [<- He]].
    cbn [cellOf intensity]. apply ratio_in_unit_interval. auto.
  - apply in_map_iff in H. destruct H as [e [<- He]].
    cbn [cellOf intensity]. apply ratio_in_unit_interval. auto.
  - pose proof (maxOf_in _ Hne) as Hin. fold M in Hin.
    unfold Map_values in Hin. apply in_map_iff in Hin.
    destruct Hin as [e [HeM He]].
    exists (cellOf host M e). split; [now apply in_map | now apply Hone].
Qed.

(** ** The sampler *)

Lemma unitDraw_range :
  forall d, 0 <= random host d < 1 -> -1 <= unitDraw host d <= 1.
Proof.
  intros d H. unfold unitDraw. lra.
Qed.

Lemma perturbed_range :
  forall base fraction u,
    0 <= base -> 0 <= fraction -> -1 <= u <= 1 ->
    (1 - fraction) * base <= perturbed base fraction u <= (1 + fraction) * base.
Proof.
  intros base fraction u Hb Hf Hu. unfold perturbed.
  assert (H0 : 0 <= base * fraction) by (apply Rmult_le_pos; assumption).
  assert (H1 : 0 <= base * fraction * (u + 1)) by (apply Rmult_le_pos; lra).
  assert (H2 : 0 <= base * fraction * (1 - u)) by (apply Rmult_le_pos; lra).
  split; nra.
Qed.

(** The step of one hour, with every draw seen as a value of [-1, 1]. *)
Lemma stepPoint_perturbed :
  forall weather p d,
    stepPoint host weather p d =
    calculateDrift (lat p) (lng p)
      (perturbed (windSpeed weather) 0.20 (unitDraw host d))
      (windDirection weather + 15 * unitDraw host (d + 2))
      (perturbed (currentSpeed weather) 0.15 (unitDraw host (d + 1)))
      (currentDirection weather + 10 * unitDraw host (d + 3))
      1.
Proof.
  intros. unfold stepPoint, perturbed, unitDraw.
  match goal with
  | |- calculateDrift _ _ ?a ?b ?c ?e _ = calculateDrift _ _ ?a' ?b' ?c' ?e' _ =>
      replace a' with a by lra; replace b' with b by lra;
      replace c' with c by lra; replace e' with e by lra
  end.
  reflexivity.
Qed.

(** C9. Hour [h + 1] of path [i] is reached from hour [h] by one call of
    [calculateDrift] with a duration of 1 hour, a wind speed
    [base * (1 + 0.20 u1)], a current speed [base * (1 + 0.15 u2)], a wind
    direction [base + 15 u3] and a current direction [base + 10 u4], where
    [u1 .. u4] are the four draws of that hour seen as values of [-1, 1];
    hence for non-negative base speeds the varied wind speed is within
    [0.8 base, 1.2 base] and the varied current speed within
    [0.85 base, 1.15 base]. *)
Theorem sampler_perturbations :
  forall startLat startLng weather simulationHours numPaths draws,
    (forall n, 0 <= random host n < 1) ->
    exists r,
      runMonteCarloSimulation host startLat startLng weather
        simulationHours numPaths draws = Some r /\
      forall i h p,
        nth_error (driftPaths r) i = Some p ->
        (h < simulationHours)%nat ->
        let start := {| lat := startLat; lng := startLng |} in
        let d := (draws + 4 * (i * simulationHours + h))%nat in
        let u1 := unitDraw host d in
        let u2 := unitDraw host (d + 1) in
        let u3 := unitDraw host (d + 2) in
        let u4 := unitDraw host (d + 3) in
        let variedWindSpeed := perturbed (windSpeed weather) 0.20 u1 in
        let variedCurrentSpeed := perturbed (currentSpeed weather) 0.15 u2 in
        (-1 <= u1 <= 1 /\ -1 <= u2 <= 1 /\ -1 <= u3 <= 1 /\ -1 <= u4 <= 1) /\
        nth (S h) p start =
        calculateDrift (lat (nth h p start)) (lng (nth h p start))
          variedWindSpeed (windDirection weather + 15 * u3)
          variedCurrentSpeed (currentDirection weather + 10 * u4)
          1 /\
        (0 <= windSpeed weather ->
         0.8 * windSpeed weather <= variedWindSpeed <= 1.2 * windSpeed weather) /\
        (0 <= currentSpeed weather ->
         0.85 * currentSpeed weather <= variedCurrentSpeed
           <= 1.15 * currentSpeed weather).
Proof.
  intros startLat startLng weather hours numPaths d Hrandom.
  run_result. intros i h p Hp Hh.
  assert (Hu : forall k, -1 <= unitDraw host k <= 1)
    by (intros k; apply unitDraw_range, Hrandom).
  split; [repeat split; apply Hu|]. split; [|split].
  - rewrite nth_error_map in Hp.
    destruct (nth_error (trails host weather hours numPaths _ d) i)
      as [t|] eqn:Ht; [|discriminate].
    cbn in Hp. injection Hp as <-.
    assert (Hi : (i < numPaths)%nat).
    { rewrite <- (trails_length weather hours numPaths
                    {| lat := startLat; lng := startLng |} d).
      apply nth_error_Some. congruence. }
    apply nth_error_nth with (d := []) in Ht.
    rewrite nth_trails in Ht by exact Hi. subst t.
    rewrite trail_step by exact Hh. rewrite stepPoint_perturbed.
    replace (d + 4 * (i * hours) + 4 * h)%nat
      with (d + 4 * (i * hours + h))%nat by lia.
    reflexivity.
  - intros Hw. pose proof (perturbed_range (windSpeed weather) 0.20
                             (unitDraw host (d + 4 * (i * hours + h))) Hw).
    specialize (Hu (d + 4 * (i * hours + h))%nat). lra.
  - intros Hc. pose proof (perturbed_range (currentSpeed weather) 0.15
                             (unitDraw host (d + 4 * (i * hours + h) + 1)) Hc).
    specialize (Hu (d + 4 * (i * hours + h) + 1)%nat). lra.
Qed.

(** ** One predicted point per hour *)

Lemma full_chunk_length :
  forall (pool : list DriftPoint) size hours h,
    length pool = (size * hours)%nat ->
    (h < hours)%nat ->
    length (firstn size (skipn (h * size) pool)) = size.
Proof.
  intros pool size hours h Hlen Hh.
  rewrite length_firstn, length_skipn, Hlen. nia.
Qed.

(** C10. In a run of at least one path and one hour there is exactly one
    predicted point per hour and no sample is dropped: the pool holds
    [numPaths * simulationHours] positions, the chunk size is [numPaths],
    the chunks cover the pool, every chunk is full, and the predicted
    point of chunk [h] is the mean of the pool positions of indices
    [h * numPaths] to [(h + 1) * numPaths - 1]. *)
Theorem predictedPoints_one_per_hour :
  forall startLat startLng weather simulationHours numPaths draws,
    (1 <= numPaths)%nat ->
    (1 <= simulationHours)%nat ->
    exists r,
      runMonteCarloSimulation host startLat startLng weather
        simulationHours numPaths draws = Some r /\
      let pool := spec_pool (driftPaths r) in
      length (predictedPoints r) = simulationHours /\
      length pool = (numPaths * simulationHours)%nat /\
      spec_chunkSize pool simulationHours = numPaths /\
      (simulationHours * spec_chunkSize pool simulationHours)%nat
        = length pool /\
      forall h, (h < simulationHours)%nat ->
        let chunk := spec_chunk pool simulationHours h in
        length chunk = numPaths /\
        nth_error (predictedPoints r) h = Some (spec_mean chunk) /\
        forall j, (j < numPaths)%nat ->
          nth_error chunk j = nth_error pool (h * numPaths + j).
Proof.
  intros startLat startLng weather hours numPaths d Hn Hh.
  run_result. rewrite spec_pool_trails.
  set (pool := concat (trails host weather hours numPaths _ d)).
  assert (Hlen : length pool = (numPaths * hours)%nat)
    by apply concat_trails_length.
  assert (Hsize : spec_chunkSize pool hours = numPaths).
  { unfold spec_chunkSize. rewrite Hlen. apply Nat.div_mul. lia. }
  assert (Hfull : forall h, (h < hours)%nat ->
                            length (spec_chunk pool hours h) = numPaths).
  { intros h Hlt. unfold spec_chunk. rewrite Hsize.
    now apply full_chunk_length with (hours := hours). }
  assert (Hkeep : filter nonEmpty (map (spec_chunk pool hours) (seq 0 hours))
                  = map (spec_chunk pool hours) (seq 0 hours)).
  { apply forallb_filter_id. apply forallb_forall. intros c Hc.
    apply in_map_iff in Hc. destruct Hc as [h [<- Hin]].
    apply in_seq in Hin. specialize (Hfull h ltac:(lia)).
    destruct (spec_chunk pool hours h); [cbn in Hfull; lia | reflexivity]. }
  unfold spec_predictedPoints. rewrite Hkeep.
  split; [now rewrite !length_map, length_seq|].
  split; [exact Hlen|]. split; [exact Hsize|].
  split; [rewrite Hsize, Hlen; lia|].
  intros h Hlt. split; [now apply Hfull|]. split.
  - rewrite !nth_error_map, nth_error_seq.
    apply Nat.ltb_lt in Hlt. rewrite Hlt. reflexivity.
  - intros j Hj. unfold spec_chunk. rewrite Hsize.
    rewrite nth_error_firstn, nth_error_skipn.
    apply Nat.ltb_lt in Hj. now rewrite Hj.
Qed.

End EngineProofs.

(** ** The search radius *)

Lemma fold_Rmax_greatest :
  forall xs x,
    (fold_left Rmax xs x = x \/ In (fold_left Rmax xs x) xs) /\
    x <= fold_left Rmax xs x /\
    (forall y, In y xs -> y <= fold_left Rmax xs x).
Proof.
  induction xs as [|a xs IH]; intros x; cbn.
  - repeat split; [now left | lra | contradiction].
  - destruct (IH (Rmax x a)) as [Hin [Hge Hall]].
    pose proof (Rmax_l x a). pose proof (Rmax_r x a).
    repeat split.
    + destruct Hin as [E | Hin]; [|now right; right].
      rewrite E. unfold Rmax. destruct (Rle_dec x a); auto.
    + lra.
    + intros y [<- | Hy]; [lra | now apply Hall].
Qed.

Lemma fold_Rmin_smallest :
  forall xs x,
    (fold_left Rmin xs x = x \/ In (fold_left Rmin xs x) xs) /\
    fold_left Rmin xs x <= x /\
    (forall y, In y xs -> fold_left Rmin xs x <= y).
Proof.
  induction xs as [|a xs IH]; intros x; cbn.
  - repeat split; [now left | lra | contradiction].
  - destruct (IH (Rmin x a)) as [Hin [Hge Hall]].
    pose proof (Rmin_l x a). pose proof (Rmin_r x a).
    repeat split.
    + destruct Hin as [E | Hin]; [|now right; right].
      rewrite E. unfold Rmin. destruct (Rle_dec x a); auto.
    + lra.
    + intros y [<- | Hy]; [lra | now apply Hall].
Qed.

Lemma Math_max_greatest :
  forall xs, xs <> [] -> is_greatest (Math_max xs) xs.
Proof.
  intros [|x xs] Hne; [congruence|]. unfold Math_max, is_greatest.
  destruct (fold_Rmax_greatest xs x) as [Hin [Hge Hall]]. split.
  - destruct Hin as [E | Hin]; [rewrite E; now left | now right].
  - intros y [<- | Hy]; [exact Hge | now apply Hall].
Qed.

Lemma Math_min_smallest :
  forall xs, xs <> [] -> is_smallest (Math_min xs) xs.
Proof.
  intros [|x xs] Hne; [congruence|]. unfold Math_min, is_smallest.
  destruct (fold_Rmin_smallest xs x) as [Hin [Hge Hall]]. split.
  - destruct Hin as [E | Hin]; [rewrite E; now left | now right].
  - intros y [<- | Hy]; [exact Hge | now apply Hall].
Qed.

Lemma clamp_range :
  forall x, 2 <= Rmax 2 (Rmin 50 x) <= 50.
Proof.
  intros x. split.
  - apply Rmax_l.
  - apply Rmax_lub; [lra | apply Rmin_l].
Qed.

(** C5. [generateSearchAreaRadius] returns 5 on fewer than two cells; on
    two cells or more it returns [max(2, min(50, maxSpan * 111 / 2))],
    [maxSpan] being the larger of the latitude span and the longitude
    span (greatest minus smallest coordinate of the cells); the value
    returned is always within [2, 50]. *)
Theorem generateSearchAreaRadius_spec :
  forall cells : list HeatmapPoint,
    ((length cells < 2)%nat -> generateSearchAreaRadius cells = 5) /\
    ((2 <= length cells)%nat ->
     exists latMax latMin lngMax lngMin,
       is_greatest latMax (map h_lat cells) /\
       is_smallest latMin (map h_lat cells) /\
       is_greatest lngMax (map h_lng cells) /\
       is_smallest lngMin (map h_lng cells) /\
       generateSearchAreaRadius cells =
       Rmax 2 (Rmin 50 ((Rmax (latMax - latMin) (lngMax - lngMin) * 111) / 2))) /\
    2 <= generateSearchAreaRadius cells <= 50.
Proof.
  intros cells. unfold generateSearchAreaRadius.
  destruct (length cells <? 2)%nat eqn:E.
  - apply Nat.ltb_lt in E. repeat split; [lia | lra | lra].
  - apply Nat.ltb_ge in E. split; [lia|]. split; [|apply clamp_range].
    intros _.
    assert (Hlat : map h_lat cells <> [])
      by (destruct cells; [cbn in E; lia | discriminate]).
    assert (Hlng : map h_lng cells <> [])
      by (destruct cells; [cbn in E; lia | discriminate]).
    exists (Math_max (map h_lat cells)), (Math_min (map h_lat cells)),
           (Math_max (map h_lng cells)), (Math_min (map h_lng cells)).
    repeat split;
      try (apply Math_max_greatest; assumption);
      try (apply Math_min_smallest; assumption).
Qed.

(** * The model at concrete inputs *)

Example split_gridKey_example :
  split "_" "13.083_-80.271" = ["13.083"; "-80.271"]%string.
Proof. reflexivity. Qed.

Example split_no_separator : split "_" "NaN" = ["NaN"%string].
Proof. reflexivity. Qed.

(** Two positions in one cell and one in another: insertion order is
    kept and the greatest count is 2. *)
Example pointCounts_example :
  let m := Map_set [] "a" 1 in
  let m := Map_set m "b" (or_zero (Map_get m "b") + 1) in
  let m := Map_set m "a" (or_zero (Map_get m "a") + 1) in
  m = [("a", 2); ("b", 1)]%string%nat /\
  Math_max_counts (Map_values m) = Finite 2.
Proof. split; reflexivity. Qed.

Example Math_max_counts_empty : Math_max_counts [] = NegInfinity.
Proof. reflexivity. Qed.

Example slice_example : slice [1; 2; 3; 4; 5]%nat 2 4 = [3; 4]%nat.
Proof. reflexivity. Qed.

Example slice_past_the_end : slice [1; 2; 3]%nat 2 4 = [3]%nat.
Proof. reflexivity. Qed.

(** A wind of 36 km/h blowing towards the north moves a drifter at the
    equator 1.26 km north in one hour, and not east. *)
Example calculateDrift_due_north :
  calculateDrift 0 0 36 0 0 0 1 =
  {| lat := 1.26 / 6371 * (180 / PI); lng := 0 |}.
Proof.
  unfold calculateDrift, R_km.
  replace (0 * PI / 180) with 0 by lra. rewrite sin_0, cos_0.
  f_equal; lra.
Qed.

(** Five paths of zero hours: each path is the start position alone. *)
Example run_zero_hours :
  option_map (fun r => (map (@length DriftPoint) (driftPaths r),
                        predictedPoints r, heatmapPoints r))
             (runMonteCarloSimulation demoHost 13.0827 80.2707
                chennaiWeather 0 5 0)
  = Some ([1; 1; 1; 1; 1]%nat, [], []).
Proof. reflexivity. Qed.

(** * The theorems at concrete inputs *)

Lemma demoHost_random_range :
  forall n, 0 <= random demoHost n < 1.
Proof.
  intros n. cbn. destruct (Nat.even n); lra.
Qed.

(** Two paths of three hours: three paths' worth of structure computes. *)
Example run_small_shape :
  option_map (fun r => (map (@length DriftPoint) (driftPaths r),
                        length (predictedPoints r),
                        length (heatmapPoints r)))
             (runMonteCarloSimulation demoHost 13.0827 80.2707
                chennaiWeather 3 2 0)
  = Some ([4; 4], 3, 1)%nat.
Proof. reflexivity. Qed.

(** The boundary scenario: 12 hours and 200 paths. *)
Lemma driftPaths_shape_witness :
  (1 <= 12 <= 12)%nat /\ (10 <= 200 <= 200)%nat /\
  exists r,
    runMonteCarloSimulation demoHost 13.0827 80.2707 chennaiWeather 12 200 0
      = Some r /\
    length (driftPaths r) = 200%nat /\
    forall p, In p (driftPaths r) ->
      length p = (12 + 1)%nat /\
      nth_error p 0 = Some {| lat := 13.0827; lng := 80.2707 |}.
Proof.
  split; [lia|]. split; [lia|]. apply driftPaths_shape; lia.
Defined.

(** The Chennai scenario: 3 hours and 50 paths. *)
Lemma heatmap_normalised_witness :
  exists r,
    runMonteCarloSimulation demoHost 13.0827 80.2707 chennaiWeather 3 50 0
      = Some r /\
    (forall c, In c (heatmapPoints r) -> 0 < intensity c <= 1) /\
    (exists c, In c (heatmapPoints r) /\ intensity c = 1).
Proof.
  destruct (heatmap_normalised demoHost 13.0827 80.2707 chennaiWeather
              3 50 0 ltac:(lia) ltac:(lia)) as [r [Hr [Hall [Hone _]]]].
  exists r. repeat split; try assumption; apply Hall; assumption.
Defined.

Lemma degenerate_run_witness :
  exists r,
    runMonteCarloSimulation demoHost 13.0827 80.2707 chennaiWeather 3 0 0
      = Some r /\
    heatmapPoints r = [] /\
    predictedPoints r = [] /\
    (O = O -> driftPaths r = []) /\
    spec_pool (driftPaths r) = [].
Proof.
  apply degenerate_run_is_empty. left. reflexivity.
Defined.

(** The zero-drift scenario: 5 hours and 20 paths. *)
Lemma zero_speed_witness :
  exists r,
    runMonteCarloSimulation demoHost 13.0827 80.2707 calmWeather 5 20 0
      = Some r /\
    forall p q, In p (driftPaths r) -> In q p ->
      q = {| lat := 13.0827; lng := 80.2707 |}.
Proof.
  apply (zero_speed_no_motion demoHost 13.0827 80.2707 calmWeather 5 20 0);
    reflexivity.
Defined.

Lemma sampler_perturbations_witness :
  exists r,
    runMonteCarloSimulation demoHost 13.0827 80.2707 chennaiWeather 3 50 0
      = Some r /\
    forall i h p,
      nth_error (driftPaths r) i = Some p ->
      (h < 3)%nat ->
      0.8 * 20 <=
        perturbed 20 0.20 (unitDraw demoHost (0 + 4 * (i * 3 + h))) <= 1.2 * 20.
Proof.
  destruct (sampler_perturbations demoHost 13.0827 80.2707 chennaiWeather
              3 50 0 demoHost_random_range) as [r [Hr Hall]].
  exists r. split; [exact Hr|]. intros i h p Hp Hh.
  destruct (Hall i h p Hp Hh) as [_ [_ [Hw _]]].
  apply Hw. cbn. lra.
Defined.

Lemma predictedPoints_one_per_hour_witness :
  exists r,
    runMonteCarloSimulation demoHost 13.0827 80.2707 chennaiWeather 3 50 0
      = Some r /\
    length (predictedPoints r) = 3%nat /\
    length (spec_pool (driftPaths r)) = (50 * 3)%nat.
Proof.
  destruct (predictedPoints_one_per_hour demoHost 13.0827 80.2707
              chennaiWeather 3 50 0 ltac:(lia) ltac:(lia))
    as [r [Hr [Hlen [Hpool _]]]].
  exists r. repeat split; assumption.
Defined.

(** * Further properties *)

(** ** Kinematics: scaling, symmetries and reach *)

(** X1. The displacement is proportional to the duration: the point
    reached after [h] hours is the start moved by [h] times the
    displacement of one hour. *)
Theorem calculateDrift_linear_in_hours :
  forall lat0 lng0 w thetaW c thetaC h : R,
    let one := calculateDrift lat0 lng0 w thetaW c thetaC 1 in
    calculateDrift lat0 lng0 w thetaW c thetaC h =
    {| lat := lat0 + h * (lat one - lat0);
       lng := lng0 + h * (lng one - lng0) |}.
Proof.
  intros. unfold one, calculateDrift, R_km, Rdiv. cbn [lat lng].
  f_equal; ring.
Qed.

Lemma degrees_plus_turns :
  forall theta (k : nat),
    (theta + 360 * INR k) * PI / 180 = theta * PI / 180 + 2 * INR k * PI.
Proof. intros. lra. Qed.

(** X2. Directions are angles: whole turns of 360 degrees added to the
    wind direction or to the current direction change nothing. *)
Theorem calculateDrift_direction_period :
  forall lat0 lng0 w thetaW c thetaC h (j k : nat),
    calculateDrift lat0 lng0 w (thetaW + 360 * INR j)
                   c (thetaC + 360 * INR k) h =
    calculateDrift lat0 lng0 w thetaW c thetaC h.
Proof.
  intros. unfold calculateDrift.
  rewrite !degrees_plus_turns, !sin_period, !cos_period. reflexivity.
Qed.

Lemma degrees_plus_half_turn :
  forall theta, (theta + 180) * PI / 180 = theta * PI / 180 + PI.
Proof. intros. lra. Qed.

(** X3. Turning the wind and the current by 180 degrees mirrors the
    displacement about the start position. *)
Theorem calculateDrift_reversed :
  forall lat0 lng0 w thetaW c thetaC h : R,
    let there := calculateDrift lat0 lng0 w thetaW c thetaC h in
    calculateDrift lat0 lng0 w (thetaW + 180) c (thetaC + 180) h =
    {| lat := lat0 - (lat there - lat0);
       lng := lng0 - (lng there - lng0) |}.
Proof.
  intros. unfold there, calculateDrift. cbn [lat lng].
  rewrite !degrees_plus_half_turn, !neg_sin, !neg_cos.
  unfold R_km, Rdiv. f_equal; ring.
Qed.

Lemma Rabs_two_components :
  forall a s b t,
    -1 <= s <= 1 -> -1 <= t <= 1 ->
    Rabs (a * s + b * t) <= Rabs a + Rabs b.
Proof.
  intros a s b t Hs Ht.
  eapply Rle_trans; [apply Rabs_triang|].
  rewrite !Rabs_mult.
  assert (Rabs s <= 1) by (apply Rabs_le; lra).
  assert (Rabs t <= 1) by (apply Rabs_le; lra).
  pose proof (Rabs_pos a). pose proof (Rabs_pos b).
  nra.
Qed.

Lemma degrees_per_metre_pos : 0 < 3600 / 1000 / 6371 * (180 / PI).
Proof.
  pose proof PI_RGT_0 as Hpi.
  apply Rmult_lt_0_compat; [lra|].
  apply Rdiv_lt_0_compat; lra.
Qed.

Lemma driftReach_nonneg : forall w c hours, 0 <= driftReach w c hours.
Proof.
  intros. unfold driftReach.
  pose proof (Rabs_pos w). pose proof (Rabs_pos c).
  pose proof (Rabs_pos hours). pose proof degrees_per_metre_pos as HK.
  replace ((Rabs w / 3.6 * 0.035 + Rabs c) * Rabs hours * 3600 / 1000 / 6371
           * (180 / PI))
    with (((Rabs w / 3.6 * 0.035 + Rabs c) * Rabs hours)
          * (3600 / 1000 / 6371 * (180 / PI))) by lra.
  apply Rmult_le_pos; [|lra].
  apply Rmult_le_pos; lra.
Qed.

Lemma scaled_velocity_reach :
  forall v w c hours,
    Rabs v <= Rabs w / 3.6 * 0.035 + Rabs c ->
    Rabs (v * hours * 3600 / 1000 / 6371 * (180 / PI)) <= driftReach w c hours.
Proof.
  intros v w c hours Hv. unfold driftReach.
  pose proof degrees_per_metre_pos as HK.
  replace (v * hours * 3600 / 1000 / 6371 * (180 / PI))
    with ((v * hours) * (3600 / 1000 / 6371 * (180 / PI))) by lra.
  replace ((Rabs w / 3.6 * 0.035 + Rabs c) * Rabs hours * 3600 / 1000 / 6371
           * (180 / PI))
    with (((Rabs w / 3.6 * 0.035 + Rabs c) * Rabs hours)
          * (3600 / 1000 / 6371 * (180 / PI))) by lra.
  rewrite Rabs_mult, (Rabs_right (3600 / 1000 / 6371 * (180 / PI))) by lra.
  apply Rmult_le_compat_r; [lra|].
  rewrite Rabs_mult. apply Rmult_le_compat_r; [apply Rabs_pos | exact Hv].
Qed.

Lemma drift_velocity_bound :
  forall w c s t,
    -1 <= s <= 1 -> -1 <= t <= 1 ->
    Rabs (w / 3.6 * 0.035 * s + c * t) <= Rabs w / 3.6 * 0.035 + Rabs c.
Proof.
  intros w c s t Hs Ht.
  eapply Rle_trans; [apply Rabs_two_components; assumption|].
  apply Rplus_le_compat_r.
  replace (w / 3.6 * 0.035) with (w * (0.035 / 3.6)) by lra.
  rewrite Rabs_mult, (Rabs_right (0.035 / 3.6)) by lra. lra.
Qed.

(** X4. In [hours] hours the drifter moves north or south by at most
    [driftReach], the angle covered at the full drift speed
    [|w| / 3.6 * 0.035 + |c|]; the same bounds its move east or west once
    multiplied by the cosine of the latitude. *)
Theorem calculateDrift_reach :
  forall lat0 lng0 w thetaW c thetaC hours : R,
    let there := calculateDrift lat0 lng0 w thetaW c thetaC hours in
    Rabs (lat there - lat0) <= driftReach w c hours /\
    Rabs (lng there - lng0) * Rabs (cos (lat0 * PI / 180))
      <= driftReach w c hours.
Proof.
  intros. unfold there, calculateDrift, R_km. cbn [lat lng]. split.
  - match goal with
    | |- Rabs (_ + ?x - _) <= _ => replace (lat0 + x - lat0) with x by lra
    end.
    apply scaled_velocity_reach, drift_velocity_bound;
      [apply COS_bound | apply COS_bound].
  - set (cosLat := cos (lat0 * PI / 180)).
    match goal with
    | |- Rabs (_ + ?x / cosLat - _) * _ <= _ =>
        replace (lng0 + x / cosLat - lng0) with (x / cosLat) by lra;
        set (east := x)
    end.
    destruct (Req_dec cosLat 0) as [Hz | Hnz].
    + rewrite Hz, Rabs_R0, Rmult_0_r. apply driftReach_nonneg.
    + unfold Rdiv at 1. rewrite Rabs_mult, Rabs_inv, Rmult_assoc.
      rewrite Rinv_l by (apply Rabs_no_R0; exact Hnz). rewrite Rmult_1_r.
      unfold east.
      apply scaled_velocity_reach, drift_velocity_bound;
        [apply SIN_bound | apply SIN_bound].
Qed.

Lemma calculateDrift_lat_reach :
  forall lat0 lng0 w thetaW c thetaC hours : R,
    Rabs (lat (calculateDrift lat0 lng0 w thetaW c thetaC hours) - lat0)
    <= driftReach w c hours.
Proof.
  intros. unfold calculateDrift, R_km. cbn [lat].
  match goal with
  | |- Rabs (_ + ?x - _) <= _ => replace (lat0 + x - lat0) with x by lra
  end.
  apply scaled_velocity_reach, drift_velocity_bound; apply COS_bound.
Qed.

Lemma driftReach_monotone :
  forall w1 c1 w2 c2 hours,
    Rabs w1 <= Rabs w2 -> Rabs c1 <= Rabs c2 ->
    driftReach w1 c1 hours <= driftReach w2 c2 hours.
Proof.
  intros w1 c1 w2 c2 hours Hw Hc. unfold driftReach.
  pose proof degrees_per_metre_pos as HK. pose proof (Rabs_pos hours).
  replace ((Rabs w1 / 3.6 * 0.035 + Rabs c1) * Rabs hours * 3600 / 1000 / 6371
           * (180 / PI))
    with (((Rabs w1 / 3.6 * 0.035 + Rabs c1) * Rabs hours)
          * (3600 / 1000 / 6371 * (180 / PI))) by lra.
  replace ((Rabs w2 / 3.6 * 0.035 + Rabs c2) * Rabs hours * 3600 / 1000 / 6371
           * (180 / PI))
    with (((Rabs w2 / 3.6 * 0.035 + Rabs c2) * Rabs hours)
          * (3600 / 1000 / 6371 * (180 / PI))) by lra.
  apply Rmult_le_compat_r; [lra|].
  apply Rmult_le_compat_r; [assumption | lra].
Qed.

Lemma calculateDrift_shiftLng :
  forall lat0 lng0 dLng w thetaW c thetaC hours : R,
    calculateDrift lat0 (lng0 + dLng) w thetaW c thetaC hours =
    shiftLng dLng (calculateDrift lat0 lng0 w thetaW c thetaC hours).
Proof.
  intros. unfold calculateDrift, shiftLng. cbn [lat lng]. f_equal. lra.
Qed.

(** ** Runs: reach, translation and the draws that matter *)

Section MoreEngine.

Variable host : Host.

Lemma stepPoint_lat_reach :
  forall weather p d,
    0 <= windSpeed weather -> 0 <= currentSpeed weather ->
    (forall n, 0 <= random host n < 1) ->
    Rabs (lat (stepPoint host weather p d) - lat p)
    <= driftReach (1.2 * windSpeed weather) (1.15 * currentSpeed weather) 1.
Proof.
  intros weather p d Hw Hc Hrandom. unfold stepPoint.
  eapply Rle_trans; [apply calculateDrift_lat_reach|].
  pose proof (Hrandom d) as H0. pose proof (Hrandom (d + 1)%nat) as H1.
  apply driftReach_monotone.
  - rewrite (Rabs_right (1.2 * windSpeed weather)) by lra.
    apply Rabs_le. split; nra.
  - rewrite (Rabs_right (1.15 * currentSpeed weather)) by lra.
    apply Rabs_le. split; nra.
Qed.

Lemma trail_lat_band :
  forall weather n p d k q,
    0 <= windSpeed weather -> 0 <= currentSpeed weather ->
    (forall n, 0 <= random host n < 1) ->
    nth_error (p :: trail host weather n p d) k = Some q ->
    Rabs (lat q - lat p)
    <= INR k * driftReach (1.2 * windSpeed weather)
                          (1.15 * currentSpeed weather) 1.
Proof.
  intros weather n. induction n as [|n IH]; intros p d k q Hw Hc Hr Hk.
  - destruct k as [|k]; cbn in Hk.
    + injection Hk as <-. rewrite Rminus_diag, Rabs_R0. cbn. lra.
    + destruct k; discriminate.
  - destruct k as [|k].
    + cbn in Hk. injection Hk as <-. rewrite Rminus_diag, Rabs_R0. cbn. lra.
    + cbn [trail nth_error] in Hk. cbv zeta in Hk.
      specialize (IH _ _ _ _ Hw Hc Hr Hk).
      pose proof (stepPoint_lat_reach weather p d Hw Hc Hr) as Hstep.
      rewrite S_INR.
      replace (lat q - lat p)
        with ((lat q - lat (stepPoint host weather p d))
              + (lat (stepPoint host weather p d) - lat p)) by lra.
      eapply Rle_trans; [apply Rabs_triang|]. lra.
Qed.

Lemma runMonteCarloSimulation_paths :
  forall startLat startLng weather hours numPaths d,
    exists r,
      runMonteCarloSimulation host startLat startLng weather hours numPaths d
        = Some r /\
      driftPaths r =
      map (cons {| lat := startLat; lng := startLng |})
          (trails host weather hours numPaths
                  {| lat := startLat; lng := startLng |} d).
Proof.
  intros. eexists. split; [apply runMonteCarloSimulation_eq|]. reflexivity.
Qed.

Lemma In_trails :
  forall weather hours n start d t,
    In t (trails host weather hours n start d) ->
    exists d', t = trail host weather hours start d'.
Proof.
  intros weather hours n. induction n as [|n IH]; intros start d t Hin.
  - contradiction.
  - destruct Hin as [<- | Hin]; [now exists d | now apply IH in Hin].
Qed.

(** X5. With non-negative base speeds, hour [k] of every path lies within
    [k] times the one-hour reach at the largest varied speeds (1.2 times
    the wind speed, 1.15 times the current speed) north or south of the
    start latitude. *)
Theorem driftPaths_latitude_band :
  forall startLat startLng weather simulationHours numPaths draws,
    0 <= windSpeed weather ->
    0 <= currentSpeed weather ->
    (forall n, 0 <= random host n < 1) ->
    exists r,
      runMonteCarloSimulation host startLat startLng weather
        simulationHours numPaths draws = Some r /\
      forall p k q,
        In p (driftPaths r) -> nth_error p k = Some q ->
        Rabs (lat q - startLat)
        <= INR k * driftReach (1.2 * windSpeed weather)
                              (1.15 * currentSpeed weather) 1.
Proof.
  intros startLat startLng weather hours numPaths d Hw Hc Hr.
  destruct (runMonteCarloSimulation_paths startLat startLng weather hours
              numPaths d) as [r [Hrun Hpaths]].
  exists r. split; [exact Hrun|]. intros p k q Hp Hk.
  rewrite Hpaths in Hp. apply in_map_iff in Hp. destruct Hp as [t [<- Ht]].
  apply In_trails in Ht. destruct Ht as [d' ->].
  apply (trail_lat_band weather hours {| lat := startLat; lng := startLng |}
           d' k q Hw Hc Hr Hk).
Qed.

Lemma stepPoint_shiftLng :
  forall weather dLng p d,
    stepPoint host weather (shiftLng dLng p) d =
    shiftLng dLng (stepPoint host weather p d).
Proof.
  intros. unfold stepPoint. cbn [shiftLng lat lng].
  apply calculateDrift_shiftLng.
Qed.

Lemma trail_shiftLng :
  forall weather dLng n p d,
    trail host weather n (shiftLng dLng p) d =
    map (shiftLng dLng) (trail host weather n p d).
Proof.
  intros weather dLng n. induction n as [|n IH]; intros p d; cbn.
  - reflexivity.
  - rewrite stepPoint_shiftLng, IH. reflexivity.
Qed.

Lemma trails_shiftLng :
  forall weather dLng hours n p d,
    trails host weather hours n (shiftLng dLng p) d =
    map (map (shiftLng dLng)) (trails host weather hours n p d).
Proof.
  intros weather dLng hours n. induction n as [|n IH]; intros p d; cbn.
  - reflexivity.
  - rewrite trail_shiftLng, IH. reflexivity.
Qed.

(** X6. The drift paths depend on the start longitude by translation
    only: starting [dLng] degrees further east, with the same draws,
    moves every point of every path [dLng] degrees east. *)
Theorem driftPaths_shift_longitude :
  forall startLat startLng dLng weather simulationHours numPaths draws,
    exists r r',
      runMonteCarloSimulation host startLat startLng weather
        simulationHours numPaths draws = Some r /\
      runMonteCarloSimulation host startLat (startLng + dLng) weather
        simulationHours numPaths draws = Some r' /\
      driftPaths r' = map (map (shiftLng dLng)) (driftPaths r).
Proof.
  intros startLat startLng dLng weather hours numPaths d.
  destruct (runMonteCarloSimulation_paths startLat startLng weather hours
              numPaths d) as [r [Hrun Hpaths]].
  destruct (runMonteCarloSimulation_paths startLat (startLng + dLng) weather
              hours numPaths d) as [r' [Hrun' Hpaths']].
  exists r, r'. split; [exact Hrun|]. split; [exact Hrun'|].
  rewrite Hpaths, Hpaths'.
  change {| lat := startLat; lng := startLng + dLng |}
    with (shiftLng dLng {| lat := startLat; lng := startLng |}).
  rewrite trails_shiftLng, !map_map. reflexivity.
Qed.

End MoreEngine.

Section Draws.

Variable host : Host.
Variable random' : nat -> R.





(** The loops leave the generator exactly that many draws further. *)
Lemma pathLoop_draws :
  forall startLat startLng weather hours n s d,
    snd (pathLoop host startLat startLng weather hours n s d)
    = (d + 4 * hours * n)%nat.
Proof.
  intros. rewrite pathLoop_eq. reflexivity.
Qed.

End Draws.

(** ** The occupancy map counts positions *)

Lemma Map_get_set :
  forall m key v key',
    Map_get (Map_set m key v) key' =
    if String.eqb key key' then Some v else Map_get m key'.
Proof.
  induction m as [|[k0 v0] m IH]; intros key v key'; cbn.
  - reflexivity.
  - destruct (String.eqb_spec k0 key) as [-> | Hne]; cbn.
    + destruct (String.eqb key key'); reflexivity.
    + rewrite IH. destruct (String.eqb_spec k0 key') as [-> | Hne'].
      * destruct (String.eqb_spec key key'); [congruence | reflexivity].
      * reflexivity.
Qed.

Lemma Map_set_keys :
  forall m key v key',
    In key' (map fst (Map_set m key v)) <-> key' = key \/ In key' (map fst m).
Proof.
  induction m as [|[k0 v0] m IH]; intros key v key'; cbn.
  - intuition congruence.
  - destruct (String.eqb_spec k0 key) as [-> | Hne]; cbn.
    + intuition congruence.
    + rewrite IH. intuition congruence.
Qed.

Lemma Map_set_NoDup :
  forall m key v, NoDup (map fst m) -> NoDup (map fst (Map_set m key v)).
Proof.
  induction m as [|[k0 v0] m IH]; intros key v Hnd; cbn.
  - constructor; [intros [] | constructor].
  - inversion Hnd as [|? ? Hnotin Hnd']; subst.
    destruct (String.eqb_spec k0 key) as [-> | Hne]; cbn.
    + constructor; assumption.
    + constructor; [|now apply IH].
      rewrite Map_set_keys. intros [E | Hin]; [congruence | contradiction].
Qed.

Lemma Map_get_In :
  forall m key v,
    NoDup (map fst m) -> (In (key, v) m <-> Map_get m key = Some v).
Proof.
  induction m as [|[k0 v0] m IH]; intros key v Hnd; cbn.
  - split; [contradiction | discriminate].
  - inversion Hnd as [|? ? Hnotin Hnd']; subst.
    destruct (String.eqb_spec k0 key) as [-> | Hne].
    + split.
      * intros [E | Hin]; [congruence|].
        exfalso. apply Hnotin. apply in_map_iff. now exists (key, v).
      * intros E. left. congruence.
    + rewrite <- IH by assumption. split.
      * intros [E | Hin]; [congruence | assumption].
      * now right.
Qed.

Lemma list_sum_Map_set :
  forall m key,
    list_sum (Map_values (Map_set m key (or_zero (Map_get m key) + 1)))
    = S (list_sum (Map_values m)).
Proof.
  induction m as [|[k0 v0] m IH]; intros key; cbn.
  - reflexivity.
  - destruct (String.eqb_spec k0 key) as [-> | Hne]; cbn.
    + lia.
    + unfold Map_values in IH. rewrite IH. unfold list_sum. lia.
Qed.

Lemma positiveCounts_length :
  forall m, positiveCounts m -> (length m <= list_sum (Map_values m))%nat.
Proof.
  induction m as [|[k0 v0] m IH]; intros Hpos; cbn; [lia|].
  inversion Hpos; subst. cbn in *. specialize (IH ltac:(assumption)).
  unfold Map_values, list_sum in IH. lia.
Qed.

Section Occupancy.

Variable host : Host.

Lemma fold_countPoint_get :
  forall ps m key,
    Map_get (fold_left (countPoint host) ps m) key =
    match positionsInCell host key ps with
    | O => Map_get m key
    | S _ => Some (or_zero (Map_get m key) + positionsInCell host key ps)%nat
    end.
Proof.
  unfold positionsInCell.
  induction ps as [|p ps IH]; intros m key; cbn [fold_left map count_occ].
  - reflexivity.
  - rewrite IH. unfold countPoint. rewrite Map_get_set.
    destruct (string_dec (gridKeyOf host p) key) as [E | Hne].
    + rewrite E, String.eqb_refl. cbn [or_zero].
      destruct (count_occ string_dec (map (gridKeyOf host) ps) key);
        f_equal; lia.
    + apply String.eqb_neq in Hne. rewrite Hne. reflexivity.
Qed.

Lemma fold_countPoint_NoDup :
  forall ps m,
    NoDup (map fst m) -> NoDup (map fst (fold_left (countPoint host) ps m)).
Proof.
  induction ps as [|p ps IH]; intros m Hnd; cbn; [exact Hnd|].
  apply IH. unfold countPoint. now apply Map_set_NoDup.
Qed.

Lemma fold_countPoint_sum :
  forall ps m,
    list_sum (Map_values (fold_left (countPoint host) ps m))
    = (list_sum (Map_values m) + length ps)%nat.
Proof.
  induction ps as [|p ps IH]; intros m; cbn [fold_left length]; [lia|].
  rewrite IH. unfold countPoint. rewrite list_sum_Map_set. lia.
Qed.

(** X8. The heat map has one cell per distinct grid key, and the count
    behind a cell is exactly the number of sampled positions that carry
    its key (at least one). *)
Theorem heatmap_cells_count_positions :
  forall startLat startLng weather simulationHours numPaths draws,
    exists r,
      runMonteCarloSimulation host startLat startLng weather
        simulationHours numPaths draws = Some r /\
      let pool := spec_pool (driftPaths r) in
      let counts := occupancy host pool in
      heatmapPoints r = map (cellOf host (maxOf (Map_values counts))) counts /\
      NoDup (map fst counts) /\
      forall key count,
        In (key, count) counts <->
        (1 <= count)%nat /\ count = positionsInCell host key pool.
Proof.
  intros startLat startLng weather hours numPaths d.
  eexists. split; [apply runMonteCarloSimulation_eq|]. cbv zeta.
  cbn [driftPaths heatmapPoints]. rewrite spec_pool_trails.
  set (pool := concat (trails host weather hours numPaths _ d)).
  assert (Hnd : NoDup (map fst (occupancy host pool)))
    by (apply fold_countPoint_NoDup; constructor).
  split; [reflexivity|]. split; [exact Hnd|].
  intros key count. rewrite (Map_get_In _ key count Hnd).
  unfold occupancy. rewrite fold_countPoint_get. cbn [Map_get or_zero].
  destruct (positionsInCell host key pool) as [|c].
  - split; [discriminate | lia].
  - split.
    + intros E. injection E as <-. lia.
    + intros [_ ->]. reflexivity.
Qed.

(** X9. Every sampled position is counted once: the counts behind the
    heat-map cells add up to [numPaths * simulationHours], so the heat map
    has at most that many cells. *)
Theorem heatmap_counts_total :
  forall startLat startLng weather simulationHours numPaths draws,
    exists r,
      runMonteCarloSimulation host startLat startLng weather
        simulationHours numPaths draws = Some r /\
      list_sum (Map_values (occupancy host (spec_pool (driftPaths r))))
      = (numPaths * simulationHours)%nat /\
      (length (heatmapPoints r) <= numPaths * simulationHours)%nat.
Proof.
  intros startLat startLng weather hours numPaths d.
  eexists. split; [apply runMonteCarloSimulation_eq|]. cbv zeta.
  cbn [driftPaths heatmapPoints]. rewrite spec_pool_trails.
  set (pool := concat (trails host weather hours numPaths _ d)).
  assert (Hsum : list_sum (Map_values (occupancy host pool))
                 = (numPaths * hours)%nat).
  { unfold occupancy. rewrite fold_countPoint_sum.
    change (list_sum (Map_values [])) with O.
    unfold pool. rewrite concat_trails_length. lia. }
  split; [exact Hsum|]. rewrite length_map, <- Hsum.
  apply positiveCounts_length. apply fold_countPoint_positive. constructor.
Qed.

End Occupancy.

(** ** Predicted points: how many, where, and of which paths *)

Lemma In_firstn_skipn :
  forall (A : Type) (l : list A) n k x,
    In x (firstn n (skipn k l)) -> In x l.
Proof.
  intros A l n k x Hin.
  rewrite <- (firstn_skipn k l). apply in_or_app. right.
  rewrite <- (firstn_skipn n (skipn k l)). apply in_or_app. now left.
Qed.

Lemma spec_chunk_length :
  forall pool hours h,
    (h < hours)%nat ->
    length (spec_chunk pool hours h) = spec_chunkSize pool hours.
Proof.
  intros pool hours h Hh. unfold spec_chunk.
  rewrite length_firstn, length_skipn.
  pose proof (Nat.Div0.mul_div_le (length pool) hours) as Hle.
  fold (spec_chunkSize pool hours) in Hle. nia.
Qed.

(** When there are at least as many positions as hours no chunk is
    empty. *)
Lemma spec_predictedPoints_full :
  forall pool hours,
    (0 < hours <= length pool)%nat ->
    spec_predictedPoints pool hours =
    map spec_mean (map (spec_chunk pool hours) (seq 0 hours)).
Proof.
  intros pool hours [Hpos Hle]. unfold spec_predictedPoints. f_equal.
  apply forallb_filter_id, forallb_forall. intros c Hc.
  apply in_map_iff in Hc. destruct Hc as [h [<- Hin]]. apply in_seq in Hin.
  pose proof (spec_chunk_length pool hours h ltac:(lia)) as Hlen.
  assert (1 <= spec_chunkSize pool hours)%nat.
  { unfold spec_chunkSize. apply Nat.div_str_pos. lia. }
  destruct (spec_chunk pool hours h); [cbn in Hlen; lia | reflexivity].
Qed.

(** With fewer positions than hours every chunk is empty. *)
Lemma spec_predictedPoints_too_few :
  forall pool hours,
    (length pool < hours)%nat -> spec_predictedPoints pool hours = [].
Proof.
  intros pool hours Hlt. unfold spec_predictedPoints.
  assert (Hsize : spec_chunkSize pool hours = O)
    by (unfold spec_chunkSize; now apply Nat.div_small).
  assert (H : forall l,
             filter nonEmpty (map (spec_chunk pool hours) l) = []).
  { induction l as [|h l IH]; cbn; [reflexivity|].
    unfold spec_chunk at 1. rewrite Hsize. cbn. exact IH. }
  now rewrite H.
Qed.

(** X10. [calculateCentroidPoints] returns one point per hour when it is
    given at least as many positions as hours, and no point at all when it
    is given fewer, even if some positions are given. *)
Theorem calculateCentroidPoints_length :
  forall points hours,
    (0 < hours)%nat ->
    exists centroids,
      calculateCentroidPoints points hours = Some centroids /\
      length centroids
      = if (length points <? hours)%nat then O else hours.
Proof.
  intros points hours Hpos. exists (spec_predictedPoints points hours).
  split; [apply calculateCentroidPoints_eq; now right|].
  destruct (length points <? hours)%nat eqn:E.
  - apply Nat.ltb_lt in E. now rewrite spec_predictedPoints_too_few.
  - apply Nat.ltb_ge in E. rewrite spec_predictedPoints_full by lia.
    now rewrite !length_map, length_seq.
Qed.

Lemma sumR_bounds :
  forall xs lo hi,
    (forall x, In x xs -> lo <= x <= hi) ->
    INR (length xs) * lo <= sumR xs <= INR (length xs) * hi.
Proof.
  induction xs as [|x xs IH]; intros lo hi Hall.
  - unfold sumR. cbn. lra.
  - change (length (x :: xs)) with (S (length xs)). rewrite S_INR.
    change (sumR (x :: xs)) with (x + sumR xs).
    pose proof (Hall x (or_introl eq_refl)).
    specialize (IH lo hi (fun y Hy => Hall y (or_intror Hy))). lra.
Qed.

Lemma mean_within :
  forall xs lo hi,
    xs <> [] ->
    (forall x, In x xs -> lo <= x <= hi) ->
    lo <= sumR xs / INR (length xs) <= hi.
Proof.
  intros xs lo hi Hne Hall.
  pose proof (sumR_bounds xs lo hi Hall) as [Hlo Hhi].
  assert (Hn : 0 < INR (length xs)).
  { apply lt_0_INR. destruct xs; [congruence | cbn; lia]. }
  split.
  - apply Rmult_le_reg_r with (INR (length xs)); [exact Hn|].
    unfold Rdiv. rewrite Rmult_assoc, Rinv_l by lra. lra.
  - apply Rmult_le_reg_r with (INR (length xs)); [exact Hn|].
    unfold Rdiv. rewrite Rmult_assoc, Rinv_l by lra. lra.
Qed.

Lemma spec_predictedPoints_within :
  forall (f : DriftPoint -> R) pool hours lo hi,
    (forall p, In p pool -> lo <= f p <= hi) ->
    forall ps,
      In ps (filter nonEmpty (map (spec_chunk pool hours) (seq 0 hours))) ->
      lo <= sumR (map f ps) / INR (length ps) <= hi.
Proof.
  intros f pool hours lo hi Hall ps Hin.
  apply filter_In in Hin. destruct Hin as [Hin Hne].
  apply in_map_iff in Hin. destruct Hin as [h [<- _]].
  rewrite <- (length_map f). apply mean_within.
  - destruct (spec_chunk pool hours h); [discriminate | discriminate].
  - intros x Hx. apply in_map_iff in Hx. destruct Hx as [p [<- Hp]].
    apply Hall. unfold spec_chunk in Hp. now apply In_firstn_skipn in Hp.
Qed.

Section Predicted.

Variable host : Host.

(** X11. Every predicted point lies in any latitude band and in any
    longitude band that holds all the sampled positions of the run. *)
Theorem predictedPoints_within_samples :
  forall startLat startLng weather simulationHours numPaths draws,
    exists r,
      runMonteCarloSimulation host startLat startLng weather
        simulationHours numPaths draws = Some r /\
      forall lo hi,
        ((forall p, In p (spec_pool (driftPaths r)) -> lo <= lat p <= hi) ->
         forall c, In c (predictedPoints r) -> lo <= lat c <= hi) /\
        ((forall p, In p (spec_pool (driftPaths r)) -> lo <= lng p <= hi) ->
         forall c, In c (predictedPoints r) -> lo <= lng c <= hi).
Proof.
  intros startLat startLng weather hours numPaths d.
  eexists. split; [apply runMonteCarloSimulation_eq|]. cbv zeta.
  cbn [driftPaths predictedPoints]. rewrite spec_pool_trails.
  intros lo hi. split; intros Hall c Hc;
    unfold spec_predictedPoints in Hc; apply in_map_iff in Hc;
    destruct Hc as [ps [<- Hps]]; cbn [spec_mean lat lng];
    eapply spec_predictedPoints_within; eassumption.
Qed.

End Predicted.

Lemma spec_mean_singleton : forall p, spec_mean [p] = p.
Proof.
  intros [la lo]. unfold spec_mean, sumR. cbn. f_equal; lra.
Qed.

Lemma sumR_repeat : forall x n, sumR (repeat x n) = INR n * x.
Proof.
  intros x n. induction n as [|n IH].
  - unfold sumR. cbn. lra.
  - change (sumR (repeat x (S n))) with (x + sumR (repeat x n)).
    rewrite IH, S_INR. lra.
Qed.

Lemma spec_mean_repeat :
  forall p n, (1 <= n)%nat -> spec_mean (repeat p n) = p.
Proof.
  intros [la lo] n Hn. unfold spec_mean.
  rewrite !map_repeat, !sumR_repeat, repeat_length. cbn [lat lng].
  assert (INR n <> 0) by (apply not_0_INR; lia).
  f_equal; field; assumption.
Qed.

Lemma concat_repeat_repeat :
  forall (A : Type) (x : A) h n,
    concat (repeat (repeat x h) n) = repeat x (n * h).
Proof.
  intros A x h n. induction n as [|n IH]; cbn; [reflexivity|].
  now rewrite IH, repeat_app.
Qed.

Lemma singleton_chunks :
  forall (A : Type) (l : list A),
    map (fun h => firstn 1 (skipn (h * 1) l)) (seq 0 (length l))
    = map (fun x => [x]) l.
Proof.
  intros A l. induction l as [|a l IH]; [reflexivity|].
  cbn [length seq map]. rewrite <- seq_shift, map_map. cbn [Nat.mul Nat.add].
  f_equal. rewrite <- IH. apply map_ext. intros h.
  replace (S (h * 1)) with (S h) by lia. replace (h * 1)%nat with h by lia.
  reflexivity.
Qed.

Lemma skipn_concat_uniform :
  forall (A : Type) (size k : nat) (ls : list (list A)),
    Forall (fun l => length l = size) ls ->
    skipn (k * size) (concat ls) = concat (skipn k ls).
Proof.
  intros A size k. induction k as [|k IH]; intros ls Hall; [reflexivity|].
  destruct ls as [|l ls]; [now rewrite skipn_nil|].
  inversion Hall as [|? ? Hl Hls]; subst.
  cbn [concat skipn Nat.mul]. rewrite skipn_app.
  rewrite skipn_all2 by lia.
  replace (length l + k * length l - length l)%nat
    with (k * length l)%nat by lia.
  now apply IH.
Qed.

Lemma firstn_concat_uniform :
  forall (A : Type) (size k : nat) (ls : list (list A)),
    Forall (fun l => length l = size) ls ->
    firstn (k * size) (concat ls) = concat (firstn k ls).
Proof.
  intros A size k. induction k as [|k IH]; intros ls Hall; [reflexivity|].
  destruct ls as [|l ls]; [now rewrite firstn_nil|].
  inversion Hall as [|? ? Hl Hls]; subst.
  cbn [concat firstn Nat.mul]. rewrite firstn_app.
  rewrite firstn_all2 by lia.
  replace (length l + k * length l - length l)%nat
    with (k * length l)%nat by lia.
  f_equal. now apply IH.
Qed.

Lemma Forall_skipn_uniform :
  forall (A : Type) (P : A -> Prop) k (l : list A),
    Forall P l -> Forall P (skipn k l).
Proof.
  intros A P k l Hall. rewrite Forall_forall in *. intros x Hx.
  apply Hall. rewrite <- (firstn_skipn k l). apply in_or_app. now right.
Qed.

Section Chunks.

Variable host : Host.

Lemma trails_zero_speed :
  forall weather hours n p d,
    windSpeed weather = 0 -> currentSpeed weather = 0 ->
    trails host weather hours n p d = repeat (repeat p hours) n.
Proof.
  intros weather hours n p d Hw Hc. revert d.
  induction n as [|n IH]; intros d; cbn; [reflexivity|].
  rewrite trail_zero_speed by assumption. now rewrite IH.
Qed.

Lemma occupancy_repeat :
  forall p n,
    occupancy host (repeat p (S n)) = [(gridKeyOf host p, S n)].
Proof.
  intros p n. unfold occupancy. cbn [repeat fold_left].
  unfold countPoint at 2. cbn [Map_get Map_set or_zero Nat.add].
  assert (H : forall k c,
             fold_left (countPoint host) (repeat p k) [(gridKeyOf host p, c)]
             = [(gridKeyOf host p, (c + k)%nat)]).
  { induction k as [|k IH]; intros c; cbn [repeat fold_left].
    - f_equal. f_equal. lia.
    - unfold countPoint at 2. cbn [Map_get Map_set].
      rewrite String.eqb_refl. cbn [or_zero]. rewrite IH.
      f_equal. f_equal. lia. }
  rewrite H. reflexivity.
Qed.

(** X12. A run of at least one path and one hour with no wind and no
    current predicts the start position for every hour, has a heat map of
    a single cell of intensity 1, and the search radius of that heat map
    is the default of 5 km. *)
Theorem calm_run :
  forall startLat startLng weather simulationHours numPaths draws,
    windSpeed weather = 0 ->
    currentSpeed weather = 0 ->
    (1 <= numPaths)%nat ->
    (1 <= simulationHours)%nat ->
    exists r,
      runMonteCarloSimulation host startLat startLng weather
        simulationHours numPaths draws = Some r /\
      predictedPoints r
      = repeat {| lat := startLat; lng := startLng |} simulationHours /\
      (exists c, heatmapPoints r = [c] /\ intensity c = 1) /\
      generateSearchAreaRadius (heatmapPoints r) = 5.
Proof.
  intros startLat startLng weather hours numPaths d Hw Hc Hn Hh.
  eexists. split; [apply runMonteCarloSimulation_eq|]. cbv zeta.
  cbn [driftPaths predictedPoints heatmapPoints].
  set (start := {| lat := startLat; lng := startLng |}).
  rewrite trails_zero_speed by assumption.
  rewrite concat_repeat_repeat.
  assert (Hpool : exists k, (numPaths * hours)%nat = S k)
    by (exists (numPaths * hours - 1)%nat; nia).
  destruct Hpool as [k Hk].
  change (fold_left (countPoint host) (repeat start (numPaths * hours)) [])
    with (occupancy host (repeat start (numPaths * hours))).
  assert (Hocc : occupancy host (repeat start (numPaths * hours))
                 = [(gridKeyOf host start, (numPaths * hours)%nat)])
    by (rewrite Hk; apply occupancy_repeat).
  rewrite Hocc.
  cbn [map Map_values snd]. unfold maxOf. cbn [fold_left Nat.max].
  split; [|split].
  - rewrite spec_predictedPoints_full
      by (rewrite repeat_length; nia).
    rewrite map_map.
    rewrite (map_ext_in _ (fun _ => start)).
    + now rewrite map_const, length_seq.
    + intros h Hin. apply in_seq in Hin.
      assert (Hlen : length (spec_chunk (repeat start (numPaths * hours))
                               hours h) = numPaths).
      { rewrite spec_chunk_length by lia. unfold spec_chunkSize.
        rewrite repeat_length. apply Nat.div_mul. lia. }
      assert (Hall : Forall (eq start)
                       (spec_chunk (repeat start (numPaths * hours)) hours h)).
      { apply Forall_forall. intros x Hx. unfold spec_chunk in Hx.
        apply In_firstn_skipn in Hx. symmetry. now apply repeat_spec in Hx. }
      apply Forall_eq_repeat in Hall. rewrite Hall, Hlen.
      now apply spec_mean_repeat.
  - eexists. split; [reflexivity|]. cbn [cellOf intensity snd].
    apply Rinv_r. apply not_0_INR. lia.
  - reflexivity.
Qed.

(** X13. A run of a single path predicts that path: the predicted points
    are the hourly positions of the path, the start left out. *)
Theorem single_path_run :
  forall startLat startLng weather simulationHours draws,
    (1 <= simulationHours)%nat ->
    exists r path,
      runMonteCarloSimulation host startLat startLng weather
        simulationHours 1 draws = Some r /\
      driftPaths r = [path] /\
      predictedPoints r = tl path.
Proof.
  intros startLat startLng weather hours d Hh.
  eexists. eexists. split; [apply runMonteCarloSimulation_eq|]. cbv zeta.
  cbn [driftPaths predictedPoints trails map concat tl]. rewrite app_nil_r.
  split; [reflexivity|].
  set (t := trail host weather hours _ d).
  assert (Hlen : length t = hours) by apply trail_length.
  rewrite spec_predictedPoints_full by lia.
  assert (Hsize : spec_chunkSize t hours = 1%nat).
  { unfold spec_chunkSize. rewrite Hlen. apply Nat.div_same. lia. }
  unfold spec_chunk. rewrite Hsize.
  replace (seq 0 hours) with (seq 0 (length t)) by (now rewrite Hlen).
  rewrite singleton_chunks, map_map.
  rewrite (map_ext _ (fun x => x)) by apply spec_mean_singleton.
  apply map_id.
Qed.

(** X14. When [numPaths] is [m] times [simulationHours], the predicted
    point number [h] is the mean of every hourly position of the [m] paths
    number [h * m] to [h * m + m - 1]: it averages whole paths, not the
    positions of one hour across the paths. *)
Theorem predictedPoints_average_whole_paths :
  forall startLat startLng weather simulationHours m draws,
    (1 <= m)%nat ->
    (1 <= simulationHours)%nat ->
    exists r,
      runMonteCarloSimulation host startLat startLng weather
        simulationHours (m * simulationHours) draws = Some r /\
      forall h, (h < simulationHours)%nat ->
        nth_error (predictedPoints r) h =
        Some (spec_mean
                (spec_pool (firstn m (skipn (h * m) (driftPaths r))))).
Proof.
  intros startLat startLng weather hours m d Hm Hh.
  eexists. split; [apply runMonteCarloSimulation_eq|]. cbv zeta.
  cbn [driftPaths predictedPoints].
  set (start := {| lat := startLat; lng := startLng |}).
  set (tss := trails host weather hours (m * hours) start d).
  assert (Huni : Forall (fun t => length t = hours) tss)
    by apply trails_each_length.
  assert (Hlen : length (concat tss) = (m * hours * hours)%nat)
    by apply concat_trails_length.
  assert (Hsize : spec_chunkSize (concat tss) hours = (m * hours)%nat).
  { unfold spec_chunkSize. rewrite Hlen. apply Nat.div_mul. lia. }
  rewrite spec_predictedPoints_full by (rewrite Hlen; nia).
  intros h Hlt.
  rewrite !nth_error_map, nth_error_seq.
  apply Nat.ltb_lt in Hlt. rewrite Hlt. cbn [option_map Nat.add].
  f_equal. f_equal. unfold spec_chunk. rewrite Hsize.
  rewrite skipn_map, firstn_map, spec_pool_trails.
  replace (h * (m * hours))%nat with (h * m * hours)%nat by lia.
  rewrite skipn_concat_uniform by exact Huni.
  apply firstn_concat_uniform. now apply Forall_skipn_uniform.
Qed.

End Chunks.

(** ** Search radius: what it depends on *)

Lemma is_greatest_unique :
  forall M M' xs, is_greatest M xs -> is_greatest M' xs -> M = M'.
Proof.
  intros M M' xs [Hin Hall] [Hin' Hall'].
  apply Rle_antisym; [now apply Hall' | now apply Hall].
Qed.

Lemma is_smallest_unique :
  forall m m' xs, is_smallest m xs -> is_smallest m' xs -> m = m'.
Proof.
  intros m m' xs [Hin Hall] [Hin' Hall'].
  apply Rle_antisym; [now apply Hall | now apply Hall'].
Qed.

Lemma Math_max_Permutation :
  forall xs ys, Permutation xs ys -> Math_max xs = Math_max ys.
Proof.
  intros xs ys Hp. destruct xs as [|x xs].
  - apply Permutation_nil in Hp. now subst.
  - assert (Hys : ys <> [])
      by (intros ->; apply Permutation_sym, Permutation_nil in Hp; discriminate).
    apply (is_greatest_unique _ _ ys); [|now apply Math_max_greatest].
    destruct (Math_max_greatest (x :: xs) ltac:(discriminate)) as [Hin Hall].
    split.
    + now apply (Permutation_in _ Hp).
    + intros y Hy. apply Hall. now apply (Permutation_in _ (Permutation_sym Hp)).
Qed.

Lemma Math_min_Permutation :
  forall xs ys, Permutation xs ys -> Math_min xs = Math_min ys.
Proof.
  intros xs ys Hp. destruct xs as [|x xs].
  - apply Permutation_nil in Hp. now subst.
  - assert (Hys : ys <> [])
      by (intros ->; apply Permutation_sym, Permutation_nil in Hp; discriminate).
    apply (is_smallest_unique _ _ ys); [|now apply Math_min_smallest].
    destruct (Math_min_smallest (x :: xs) ltac:(discriminate)) as [Hin Hall].
    split.
    + now apply (Permutation_in _ Hp).
    + intros y Hy. apply Hall. now apply (Permutation_in _ (Permutation_sym Hp)).
Qed.

(** X15. The search radius does not depend on the order of the heat-map
    cells. *)
Theorem generateSearchAreaRadius_Permutation :
  forall cells cells',
    Permutation cells cells' ->
    generateSearchAreaRadius cells = generateSearchAreaRadius cells'.
Proof.
  intros cells cells' Hp. unfold generateSearchAreaRadius.
  rewrite (Permutation_length Hp).
  rewrite (Math_max_Permutation _ _ (Permutation_map h_lat Hp)).
  rewrite (Math_min_Permutation _ _ (Permutation_map h_lat Hp)).
  rewrite (Math_max_Permutation _ _ (Permutation_map h_lng Hp)).
  rewrite (Math_min_Permutation _ _ (Permutation_map h_lng Hp)).
  reflexivity.
Qed.

Lemma Math_max_cons_le :
  forall x xs, xs <> [] -> Math_max xs <= Math_max (x :: xs).
Proof.
  intros x xs Hne.
  destruct (Math_max_greatest xs Hne) as [Hin _].
  destruct (Math_max_greatest (x :: xs) ltac:(discriminate)) as [_ Hall].
  apply Hall. now right.
Qed.

Lemma Math_min_cons_le :
  forall x xs, xs <> [] -> Math_min (x :: xs) <= Math_min xs.
Proof.
  intros x xs Hne.
  destruct (Math_min_smallest xs Hne) as [Hin _].
  destruct (Math_min_smallest (x :: xs) ltac:(discriminate)) as [_ Hall].
  apply Hall. now right.
Qed.

Lemma clamp_monotone :
  forall a b, a <= b -> Rmax 2 (Rmin 50 a) <= Rmax 2 (Rmin 50 b).
Proof.
  intros a b Hab. unfold Rmax, Rmin.
  repeat destruct (Rle_dec _ _); lra.
Qed.

(** X16. From two cells on, one more cell never makes the search radius
    smaller. *)
Theorem generateSearchAreaRadius_grows :
  forall c cells,
    (2 <= length cells)%nat ->
    generateSearchAreaRadius cells <= generateSearchAreaRadius (c :: cells).
Proof.
  intros c cells Hlen. unfold generateSearchAreaRadius.
  assert (E1 : (length cells <? 2)%nat = false) by (apply Nat.ltb_ge; lia).
  assert (E2 : (length (c :: cells) <? 2)%nat = false)
    by (apply Nat.ltb_ge; cbn; lia).
  rewrite E1, E2. cbn [map].
  assert (Hlat : map h_lat cells <> [])
    by (destruct cells; [cbn in Hlen; lia | discriminate]).
  assert (Hlng : map h_lng cells <> [])
    by (destruct cells; [cbn in Hlen; lia | discriminate]).
  pose proof (Math_max_cons_le (h_lat c) _ Hlat).
  pose proof (Math_min_cons_le (h_lat c) _ Hlat).
  pose proof (Math_max_cons_le (h_lng c) _ Hlng).
  pose proof (Math_min_cons_le (h_lng c) _ Hlng).
  apply clamp_monotone.
  assert (Rmax (Math_max (map h_lat cells) - Math_min (map h_lat cells))
               (Math_max (map h_lng cells) - Math_min (map h_lng cells))
          <= Rmax (Math_max (h_lat c :: map h_lat cells)
                   - Math_min (h_lat c :: map h_lat cells))
                  (Math_max (h_lng c :: map h_lng cells)
                   - Math_min (h_lng c :: map h_lng cells))).
  { apply Rmax_lub.
    - eapply Rle_trans; [|apply Rmax_l]. lra.
    - eapply Rle_trans; [|apply Rmax_r]. lra. }
  lra.
Qed.

(** X17. From two cells on, the search radius is half the larger span
    taken at 111 km per degree, held at 2 km for spans up to 4/111 of a
    degree and at 50 km for spans from 100/111 of a degree. *)
Theorem generateSearchAreaRadius_thresholds :
  forall cells,
    (2 <= length cells)%nat ->
    (maxSpan cells <= 4 / 111 -> generateSearchAreaRadius cells = 2) /\
    (4 / 111 <= maxSpan cells <= 100 / 111 ->
     generateSearchAreaRadius cells = maxSpan cells * 111 / 2) /\
    (100 / 111 <= maxSpan cells -> generateSearchAreaRadius cells = 50).
Proof.
  intros cells Hlen. unfold generateSearchAreaRadius.
  assert (E : (length cells <? 2)%nat = false) by (apply Nat.ltb_ge; lia).
  rewrite E. fold (maxSpan cells). generalize (maxSpan cells). intros s.
  unfold Rmax, Rmin. repeat split; intros Hs;
    repeat destruct (Rle_dec _ _); lra.
Qed.

(** ** The weather provider *)

Lemma Rltb_true : forall x y, Rltb x y = true <-> x < y.
Proof.
  intros x y. unfold Rltb. destruct (Rlt_dec x y); split;
    intros; (assumption || reflexivity || discriminate || contradiction).
Qed.

Lemma isNearby_true :
  forall lat0 lng0 w,
    isNearby lat0 lng0 w = true <->
    Rabs (row_lat w - lat0) < 0.05 /\ Rabs (row_lng w - lng0) < 0.05.
Proof.
  intros. unfold isNearby. rewrite andb_true_iff, !Rltb_true. reflexivity.
Qed.

(** X18. A row answered by [getLatestMarineWeather] is one of the rows of
    the query, lies within 0.05 degrees of the position in latitude and in
    longitude, was fetched less than 30 minutes before [now], and no row
    before it in the query's answer is that near. *)
Theorem getLatestMarineWeather_sound :
  forall results lat0 lng0 now w,
    getLatestMarineWeather results lat0 lng0 now = Some w ->
    In w results /\
    Rabs (row_lat w - lat0) < 0.05 /\
    Rabs (row_lng w - lng0) < 0.05 /\
    (now - row_fetchedAt w < 1800000)%Z /\
    exists before after,
      results = before ++ w :: after /\
      forall w', In w' before -> isNearby lat0 lng0 w' = false.
Proof.
  intros results lat0 lng0 now w. unfold getLatestMarineWeather.
  destruct (find (isNearby lat0 lng0) results) as [nearby|] eqn:Hfind;
    [|discriminate].
  destruct (now - row_fetchedAt nearby <? 30 * 60 * 1000)%Z eqn:Hage;
    [|discriminate].
  intros E. injection E as <-.
  pose proof (find_some _ _ Hfind) as [Hin Hnear].
  apply isNearby_true in Hnear. destruct Hnear as [Hlat Hlng].
  apply Z.ltb_lt in Hage.
  repeat split; try assumption; try lia.
  clear Hage Hin Hlat Hlng. revert Hfind.
  induction results as [|x results IH]; cbn; [discriminate|].
  destruct (isNearby lat0 lng0 x) eqn:Hx.
  - intros E. injection E as ->. exists [], results. split; [reflexivity|].
    intros w' [].
  - intros Hfind. destruct (IH Hfind) as [before [after [-> Hbefore]]].
    exists (x :: before), after. split; [reflexivity|].
    intros w' [<- | Hw']; [exact Hx | now apply Hbefore].
Qed.

Lemma find_most_recent :
  forall lat0 lng0 results w,
    mostRecentFirst results ->
    In w results ->
    isNearby lat0 lng0 w = true ->
    exists nearby,
      find (isNearby lat0 lng0) results = Some nearby /\
      (row_fetchedAt w <= row_fetchedAt nearby)%Z.
Proof.
  intros lat0 lng0 results w. induction results as [|x results IH];
    intros Hsorted Hin Hnear; [contradiction|].
  cbn [mostRecentFirst] in Hsorted. destruct Hsorted as [Hx Hrest].
  cbn [find]. destruct (isNearby lat0 lng0 x) eqn:E.
  - exists x. split; [reflexivity|].
    destruct Hin as [<- | Hin]; [lia | now apply Hx].
  - destruct Hin as [<- | Hin]; [congruence|]. now apply IH.
Qed.

Section Provider.

Variable host : Host.

(** X19. When the rows of the query come most recent first and one of
    them is near the position and less than 30 minutes old,
    [fetchMarineWeather] answers from the table: it returns the five
    weather fields of a row at least as recent, whatever the two requests
    would answer, draws no random number and writes nothing. *)
Theorem fetchMarineWeather_cache_hit :
  forall lat0 lng0 results now api saveWorks d w,
    mostRecentFirst results ->
    In w results ->
    isNearby lat0 lng0 w = true ->
    (now - row_fetchedAt w < 1800000)%Z ->
    exists cached,
      getLatestMarineWeather results lat0 lng0 now = Some cached /\
      (row_fetchedAt w <= row_fetchedAt cached)%Z /\
      fetchMarineWeather host lat0 lng0 results now api saveWorks d
      = ((weatherOfRow cached, None), d).
Proof.
  intros lat0 lng0 results now api saveWorks d w Hsorted Hin Hnear Hfresh.
  destruct (find_most_recent lat0 lng0 results w Hsorted Hin Hnear)
    as [nearby [Hfind Hrecent]].
  exists nearby.
  assert (Hget : getLatestMarineWeather results lat0 lng0 now = Some nearby).
  { unfold getLatestMarineWeather. rewrite Hfind. cbv zeta.
    assert (E : (now - row_fetchedAt nearby <? 30 * 60 * 1000)%Z = true)
      by (apply Z.ltb_lt; lia).
    now rewrite E. }
  split; [exact Hget|]. split; [exact Hrecent|].
  unfold fetchMarineWeather. rewrite Hget. reflexivity.
Qed.

Lemma fallbackWeather_eq :
  forall d,
    fallbackWeather host d =
    (({| windSpeed := 12 + random host d * 8;
         windDirection := random host (d + 1) * 360;
         waveHeight := 1 + random host (d + 2) * 2;
         currentSpeed := 0.2 + random host (d + 3) * 0.5;
         currentDirection := random host (d + 4) * 360 |}, None),
     (d + 5)%nat).
Proof.
  intros d. unfold fallbackWeather, Math_random, bind, ret.
  replace (d + 1)%nat with (S d) by lia.
  replace (d + 2)%nat with (S (S d)) by lia.
  replace (d + 3)%nat with (S (S (S d))) by lia.
  replace (d + 4)%nat with (S (S (S (S d)))) by lia.
  replace (d + 5)%nat with (S (S (S (S (S d))))) by lia.
  reflexivity.
Qed.

(** X20. When the table has no fresh row nearby and either a request
    fails or the write to the table fails, [fetchMarineWeather] writes
    nothing and returns a made-up sample: wind 12 to 20 km/h, wave height
    1 to 3 m, current 0.2 to 0.7 m/s, both directions within 0 to 360
    degrees (upper bounds excluded). *)
Theorem fetchMarineWeather_fallback :
  forall lat0 lng0 results now api saveWorks d,
    (forall n, 0 <= random host n < 1) ->
    getLatestMarineWeather results lat0 lng0 now = None ->
    api = ApiThrows \/ saveWorks = false ->
    let out := fetchMarineWeather host lat0 lng0 results now api saveWorks d in
    let sample := fst (fst out) in
    snd (fst out) = None /\
    12 <= windSpeed sample < 20 /\
    0 <= windDirection sample < 360 /\
    1 <= waveHeight sample < 3 /\
    0.2 <= currentSpeed sample < 0.7 /\
    0 <= currentDirection sample < 360.
Proof.
  intros lat0 lng0 results now api saveWorks d Hr Hmiss Hfail. cbv zeta.
  unfold fetchMarineWeather. rewrite Hmiss.
  assert (Hfb : forall k,
    let out := fallbackWeather host k in
    snd (fst out) = None /\
    12 <= windSpeed (fst (fst out)) < 20 /\
    0 <= windDirection (fst (fst out)) < 360 /\
    1 <= waveHeight (fst (fst out)) < 3 /\
    0.2 <= currentSpeed (fst (fst out)) < 0.7 /\
    0 <= currentDirection (fst (fst out)) < 360).
  { intros k. cbv zeta. rewrite fallbackWeather_eq. cbn [fst snd
      windSpeed windDirection waveHeight currentSpeed currentDirection].
    pose proof (Hr k). pose proof (Hr (k + 1)%nat). pose proof (Hr (k + 2)%nat).
    pose proof (Hr (k + 3)%nat). pose proof (Hr (k + 4)%nat).
    repeat split; lra. }
  destruct api as [marineData weatherData|].
  - destruct Hfail as [Habs | ->]; [discriminate|].
    unfold bind, Math_random. apply Hfb.
  - apply Hfb.
Qed.

Lemma JS_rem_range :
  forall x m, 0 <= x -> 0 < m -> 0 <= JS_rem x m < m.
Proof.
  intros x m Hx Hm. unfold JS_rem, Rtrunc.
  assert (Hq : 0 <= x / m).
  { unfold Rdiv. apply Rmult_le_pos; [exact Hx|].
    left. now apply Rinv_0_lt_compat. }
  destruct (Rle_dec 0 (x / m)) as [_ | Hn]; [|contradiction].
  destruct (base_Int_part (x / m)) as [Hlo Hhi].
  assert (Hxm : m * (x / m) = x) by (field; lra).
  split; nra.
Qed.

(** X21. When the table has no fresh row nearby, the two requests answer
    and the write succeeds, [fetchMarineWeather] draws two random numbers,
    writes under the requested position exactly the sample it returns,
    gives a current of 0.3 to 0.7 m/s set 30 to 90 degrees clockwise of
    the wind up to whole turns, and, for a wind direction of at least -30
    degrees, a current direction within 0 to 360 degrees. *)
Theorem fetchMarineWeather_live :
  forall lat0 lng0 results now marineData weatherData d,
    (forall n, 0 <= random host n < 1) ->
    getLatestMarineWeather results lat0 lng0 now = None ->
    let out := fetchMarineWeather host lat0 lng0 results now
                 (ApiAnswers marineData weatherData) true d in
    let sample := fst (fst out) in
    snd out = (d + 2)%nat /\
    snd (fst out)
    = Some {| ins_lat := lat0; ins_lng := lng0; ins_weather := sample |} /\
    0.3 <= currentSpeed sample < 0.7 /\
    (exists (offset : R) (turns : Z),
        30 <= offset < 90 /\
        currentDirection sample
        = windDirection sample + offset - 360 * IZR turns) /\
    (-30 <= windDirection sample ->
     0 <= currentDirection sample < 360).
Proof.
  intros lat0 lng0 results now marineData weatherData d Hr Hmiss. cbv zeta.
  unfold fetchMarineWeather. rewrite Hmiss.
  unfold bind, Math_random, ret.
  cbn [fst snd windSpeed windDirection waveHeight currentSpeed
       currentDirection].
  pose proof (Hr d) as H0. pose proof (Hr (S d)) as H1.
  split; [lia|]. split; [reflexivity|]. split; [lra|]. split.
  - exists (30 + random host (S d) * 60).
    eexists. split; [lra|]. unfold JS_rem.
    match goal with
    | |- ?a + 30 + ?b - 360 * IZR ?t = _ => instantiate (1 := t)
    end. lra.
  - intros Hwd. apply JS_rem_range; lra.
Qed.

End Provider.

(** ** The compass point shown for a direction *)

Lemma Math_round_bounds :
  forall x, IZR (Math_round x) <= x + 1 / 2 < IZR (Math_round x) + 1.
Proof.
  intros x. unfold Math_round.
  destruct (base_Int_part (x + 1 / 2)) as [Hlo Hhi]. lra.
Qed.

(** X22. For a direction from 0 up to 360 degrees [formatDirection] names
    the compass point nearest to it, at most 22.5 degrees away (north also
    from 337.5 degrees on); for a direction from -337.5 up to -22.5
    degrees it has no name to give. *)
Theorem formatDirection_nearest :
  forall degrees,
    (0 <= degrees < 360 ->
     exists (k : nat) (label : string),
       nth_error ["N"; "NE"; "E"; "SE"; "S"; "SW"; "W"; "NW"]%string k
       = Some label /\
       formatDirection degrees = Some label /\
       (Rabs (degrees - 45 * INR k) <= 22.5 \/
        (k = O /\ 337.5 <= degrees))) /\
    (-337.5 <= degrees < -22.5 -> formatDirection degrees = None).
Proof.
  intros degrees. unfold formatDirection. cbv zeta.
  pose proof (Math_round_bounds (degrees / 45)) as Hround.
  set (z := Math_round (degrees / 45)) in *. clearbody z.
  split; intros Hd.
  - assert (Hz : (0 <= z <= 8)%Z).
    { split.
      - apply Z.lt_succ_r. apply lt_IZR. rewrite succ_IZR. lra.
      - apply Z.lt_succ_r. apply lt_IZR. rewrite succ_IZR. lra. }
    assert (Hcases : z = 0%Z \/ z = 1%Z \/ z = 2%Z \/ z = 3%Z \/ z = 4%Z \/
                     z = 5%Z \/ z = 6%Z \/ z = 7%Z \/ z = 8%Z) by lia.
    destruct Hcases as [-> | [-> | [-> | [-> | [-> | [-> | [-> | [-> | ->]]]]]]]];
      cbn in Hround |- *.
    + exists 0%nat, "N"%string. repeat split. left. cbn. apply Rabs_le. lra.
    + exists 1%nat, "NE"%string. repeat split. left. cbn. apply Rabs_le. lra.
    + exists 2%nat, "E"%string. repeat split. left. cbn. apply Rabs_le. lra.
    + exists 3%nat, "SE"%string. repeat split. left. cbn. apply Rabs_le. lra.
    + exists 4%nat, "S"%string. repeat split. left. cbn. apply Rabs_le. lra.
    + exists 5%nat, "SW"%string. repeat split. left. cbn. apply Rabs_le. lra.
    + exists 6%nat, "W"%string. repeat split. left. cbn. apply Rabs_le. lra.
    + exists 7%nat, "NW"%string. repeat split. left. cbn. apply Rabs_le. lra.
    + exists 0%nat, "N"%string. repeat split. right. split; [reflexivity | lra].
  - assert (Hz : (-7 <= z <= -1)%Z).
    { split.
      - apply Z.lt_succ_r. apply lt_IZR. rewrite succ_IZR. lra.
      - apply Z.lt_succ_r. apply lt_IZR. rewrite succ_IZR. lra. }
    assert (Hcases : z = (-7)%Z \/ z = (-6)%Z \/ z = (-5)%Z \/ z = (-4)%Z \/
                     z = (-3)%Z \/ z = (-2)%Z \/ z = (-1)%Z) by lia.
    destruct Hcases as [-> | [-> | [-> | [-> | [-> | [-> | ->]]]]]];
      reflexivity.
Qed.

(** * The further properties at concrete inputs *)

Lemma demoRow_nearby : isNearby 13.0827 80.2707 demoRow = true.
Proof.
  apply isNearby_true. cbn. split; apply Rabs_def1; lra.
Qed.

Lemma demoRow_cached :
  getLatestMarineWeather [demoRow] 13.0827 80.2707 1060000 = Some demoRow.
Proof.
  unfold getLatestMarineWeather. cbn [find]. rewrite demoRow_nearby.
  reflexivity.
Qed.

Lemma driftPaths_latitude_band_witness :
  exists r,
    runMonteCarloSimulation demoHost 13.0827 80.2707 chennaiWeather 3 50 0
      = Some r /\
    forall p k q,
      In p (driftPaths r) -> nth_error p k = Some q ->
      Rabs (lat q - 13.0827)
      <= INR k * driftReach (1.2 * windSpeed chennaiWeather)
                            (1.15 * currentSpeed chennaiWeather) 1.
Proof.
  apply driftPaths_latitude_band;
    [cbn; lra | cbn; lra | apply demoHost_random_range].
Defined.


Lemma calculateCentroidPoints_length_witness :
  exists centroids,
    calculateCentroidPoints
      [ {| lat := 1; lng := 2 |}; {| lat := 3; lng := 4 |} ] 3
    = Some centroids /\
    length centroids = O.
Proof.
  apply (calculateCentroidPoints_length
           [ {| lat := 1; lng := 2 |}; {| lat := 3; lng := 4 |} ] 3).
  lia.
Defined.

Lemma calm_run_witness :
  exists r,
    runMonteCarloSimulation demoHost 13.0827 80.2707 calmWeather 5 20 0
      = Some r /\
    predictedPoints r = repeat {| lat := 13.0827; lng := 80.2707 |} 5 /\
    (exists c, heatmapPoints r = [c] /\ intensity c = 1) /\
    generateSearchAreaRadius (heatmapPoints r) = 5.
Proof.
  apply calm_run; [reflexivity | reflexivity | lia | lia].
Defined.

Lemma single_path_run_witness :
  exists r path,
    runMonteCarloSimulation demoHost 13.0827 80.2707 chennaiWeather 3 1 0
      = Some r /\
    driftPaths r = [path] /\
    predictedPoints r = tl path.
Proof.
  apply single_path_run. lia.
Defined.

(** The default of 100 paths over 5 hours: twenty whole paths per
    predicted point. *)
Lemma predictedPoints_average_whole_paths_witness :
  exists r,
    runMonteCarloSimulation demoHost 13.0827 80.2707 chennaiWeather
      5 (20 * 5) 0 = Some r /\
    forall h, (h < 5)%nat ->
      nth_error (predictedPoints r) h =
      Some (spec_mean (spec_pool (firstn 20 (skipn (h * 20) (driftPaths r))))).
Proof.
  apply predictedPoints_average_whole_paths; lia.
Defined.

Lemma generateSearchAreaRadius_Permutation_witness :
  generateSearchAreaRadius demoCells = generateSearchAreaRadius (rev demoCells).
Proof.
  apply generateSearchAreaRadius_Permutation. apply Permutation_rev.
Defined.

Lemma generateSearchAreaRadius_grows_witness :
  generateSearchAreaRadius demoCells
  <= generateSearchAreaRadius
       ({| h_lat := 14; h_lng := 80; intensity := 0.1 |} :: demoCells).
Proof.
  apply generateSearchAreaRadius_grows. cbn. lia.
Defined.

Lemma generateSearchAreaRadius_thresholds_witness :
  (maxSpan demoCells <= 4 / 111 -> generateSearchAreaRadius demoCells = 2) /\
  (4 / 111 <= maxSpan demoCells <= 100 / 111 ->
   generateSearchAreaRadius demoCells = maxSpan demoCells * 111 / 2) /\
  (100 / 111 <= maxSpan demoCells -> generateSearchAreaRadius demoCells = 50).
Proof.
  apply generateSearchAreaRadius_thresholds. cbn. lia.
Defined.

Lemma getLatestMarineWeather_sound_witness :
  In demoRow [demoRow] /\
  Rabs (row_lat demoRow - 13.0827) < 0.05 /\
  Rabs (row_lng demoRow - 80.2707) < 0.05 /\
  (1060000 - row_fetchedAt demoRow < 1800000)%Z /\
  exists before after,
    [demoRow] = before ++ demoRow :: after /\
    forall w', In w' before -> isNearby 13.0827 80.2707 w' = false.
Proof.
  apply (getLatestMarineWeather_sound [demoRow] 13.0827 80.2707 1060000).
  apply demoRow_cached.
Defined.

Lemma fetchMarineWeather_cache_hit_witness :
  exists cached,
    getLatestMarineWeather [demoRow] 13.0827 80.2707 1060000 = Some cached /\
    (row_fetchedAt demoRow <= row_fetchedAt cached)%Z /\
    fetchMarineWeather demoHost 13.0827 80.2707 [demoRow] 1060000
      ApiThrows true 0%nat
    = ((weatherOfRow cached, None), O).
Proof.
  apply fetchMarineWeather_cache_hit.
  - cbn. split; [intros w' [] | exact I].
  - now left.
  - apply demoRow_nearby.
  - cbn. lia.
Defined.

Lemma fetchMarineWeather_fallback_witness :
  let out := fetchMarineWeather demoHost 13.0827 80.2707 [] 1060000
               ApiThrows true 0%nat in
  snd (fst out) = None /\
  12 <= windSpeed (fst (fst out)) < 20 /\
  0 <= windDirection (fst (fst out)) < 360 /\
  1 <= waveHeight (fst (fst out)) < 3 /\
  0.2 <= currentSpeed (fst (fst out)) < 0.7 /\
  0 <= currentDirection (fst (fst out)) < 360.
Proof.
  apply (fetchMarineWeather_fallback demoHost 13.0827 80.2707 [] 1060000
           ApiThrows true 0%nat demoHost_random_range);
    [reflexivity | now left].
Defined.

Lemma fetchMarineWeather_live_witness :
  let out := fetchMarineWeather demoHost 13.0827 80.2707 [] 1060000
               (ApiAnswers {| hourly := None |} {| current := None |})
               true 0%nat in
  snd out = 2%nat /\
  snd (fst out)
  = Some {| ins_lat := 13.0827; ins_lng := 80.2707;
            ins_weather := fst (fst out) |} /\
  0.3 <= currentSpeed (fst (fst out)) < 0.7.
Proof.
  destruct (fetchMarineWeather_live demoHost 13.0827 80.2707 [] 1060000
              {| hourly := None |} {| current := None |} 0%nat
              demoHost_random_range eq_refl) as [Hd [Hsaved [Hspeed _]]].
  cbv zeta. repeat split; try assumption; apply Hspeed.
Defined.
